(** * pg-inspector: the information-schema inspection pipeline of inspect.go

    The development embeds [inspect.go]: the five nullable domain types, the
    three catalog record types with their struct tags, and [main] as a
    program in a small process monad (event trace, logger output, deferred
    calls, [os.Exit]).  The database and the driver are an oracle ([World]);
    the meaning of the three [WHERE ... IN ?] queries over a catalog is given
    separately ([ListSchemas], [ListTables], [ListColumns]).  The request
    body of the second program, [customReader] with [Read], [Close] and
    [Reset], is embedded with the random source as an oracle. *)

From Stdlib Require Import String Ascii List ZArith Bool Lia Permutation.
Import ListNotations.
Local Open Scope string_scope.
Local Open Scope list_scope.

(** ** Nullable domain types (inspect.go, lines 11-17) *)

(** [dbr.NullInt64], [dbr.NullString], [dbr.NullTime]: a payload and the
    flag [Valid], true when the value is not NULL. *)
Module NullInt64.
Record t : Type := mk { Int64 : Z; Valid : bool }.
End NullInt64.

Module NullString.
Record t : Type := mk { String : string; Valid : bool }.
End NullString.

(** An instant is kept as a count of nanoseconds; the zero [time.Time] is 0. *)
Definition Time : Type := Z.

Module NullTime.
Record t : Type := mk { Time : Z; Valid : bool }.
End NullTime.

Definition CardinalNumber : Type := NullInt64.t.
Definition CharacterData : Type := NullString.t.
Definition SQLIdentifier : Type := NullString.t.
Definition TimeStamp : Type := NullTime.t.
Definition YesOrNo : Type := NullString.t.

Inductive DomainType : Type :=
| TCardinalNumber | TCharacterData | TSQLIdentifier | TTimeStamp | TYesOrNo.

(** Values as the driver hands them over: [None] is SQL NULL. *)
Definition DriverValue (A : Type) : Type := option A.

(** Modelled from the spec: the decoding of a driver-native nullable value
    into a nullable domain type.  inspect.go only declares the five types
    over the driver library's nullable structs; the decoding routine itself
    is not part of this repository.  The spec (4.1): the wrapper exposes the
    decoded payload and a flag telling whether the source value was NULL. *)
Definition decode_int64 (v : DriverValue Z) : NullInt64.t :=
  match v with
  | None => NullInt64.mk 0 false
  | Some n => NullInt64.mk n true
  end.

(** Modelled from the spec: as [decode_int64], for text. *)
Definition decode_string (v : DriverValue string) : NullString.t :=
  match v with
  | None => NullString.mk "" false
  | Some s => NullString.mk s true
  end.

(** Modelled from the spec: as [decode_int64], for instants. *)
Definition decode_time (v : DriverValue Time) : NullTime.t :=
  match v with
  | None => NullTime.mk 0 false
  | Some t => NullTime.mk t true
  end.

Definition decode_CardinalNumber : DriverValue Z -> CardinalNumber := decode_int64.
Definition decode_CharacterData : DriverValue string -> CharacterData := decode_string.
Definition decode_SQLIdentifier : DriverValue string -> SQLIdentifier := decode_string.
Definition decode_TimeStamp : DriverValue Time -> TimeStamp := decode_time.
Definition decode_YesOrNo : DriverValue string -> YesOrNo := decode_string.

(** Modelled from the spec: the presence test [IsNull] of the spec's
    testable properties, read off the flag. *)
Definition IsNull_int64 (x : NullInt64.t) : bool := negb (NullInt64.Valid x).

(** Modelled from the spec: [IsNull] for the three text types. *)
Definition IsNull_string (x : NullString.t) : bool := negb (NullString.Valid x).

(** Modelled from the spec: [IsNull] for [TimeStamp]. *)
Definition IsNull_time (x : NullTime.t) : bool := negb (NullTime.Valid x).

(** ** Catalog record types (inspect.go, lines 41-112) *)

Module Schemata.
Record TSchemata : Type := mk {
    CatalogName : SQLIdentifier;
    SchemaName : SQLIdentifier;
    SchemaOwner : SQLIdentifier;
    DefaultCharacterSetCatalog : SQLIdentifier;
    DefaultCharacterSetSchema : SQLIdentifier;
    DefaultCharacterSetName : SQLIdentifier;
    SQLPath : CharacterData
  }.
End Schemata.

Module Tables.
Record TTables : Type := mk {
    TableCatalog : SQLIdentifier;
    TableSchema : SQLIdentifier;
    TableName : SQLIdentifier;
    TableType : CharacterData;
    SelfReferencingColumnName : SQLIdentifier;
    ReferenceGeneration : CharacterData;
    UserDefinedTypeCatalog : SQLIdentifier;
    UserDefinedTypeSchema : SQLIdentifier;
    UserDefinedTypeName : SQLIdentifier;
    IsInsertableInto : YesOrNo;
    IsTyped : YesOrNo;
    CommitAction : CharacterData
  }.
End Tables.

Module Columns.
Record TColumns : Type := mk {
    TableCatalog : SQLIdentifier;
    TableSchema : SQLIdentifier;
    TableName : SQLIdentifier;
    ColumnName : SQLIdentifier;
    OrdinalPosition : CardinalNumber;
    ColumnDefault : CharacterData;
    IsNullable : YesOrNo;
    DataType : CharacterData;
    CharacterMaximumLength : CardinalNumber;
    CharacterOctetLength : CardinalNumber;
    NumericPrecision : CardinalNumber;
    NumericPrecisionRadix : CardinalNumber;
    NumericScale : CardinalNumber;
    DatetimePrecision : CardinalNumber;
    IntervalType : CharacterData;
    IntervalPrecision : CardinalNumber;
    CharacterSetCatalog : SQLIdentifier;
    CharacterSetSchema : SQLIdentifier;
    CharacterSetName : SQLIdentifier;
    CollationCatalog : SQLIdentifier;
    CollationSchema : SQLIdentifier;
    CollationName : SQLIdentifier;
    DomainCatalog : SQLIdentifier;
    DomainSchema : SQLIdentifier;
    DomainName : SQLIdentifier;
    UdtCatalog : SQLIdentifier;
    UdtSchema : SQLIdentifier;
    UdtName : SQLIdentifier;
    ScopeCatalog : SQLIdentifier;
    ScopeSchema : SQLIdentifier;
    ScopeName : SQLIdentifier;
    MaximumCardinality : CardinalNumber;
    DtdIdentifier : SQLIdentifier;
    IsSelfReferencing : YesOrNo;
    IsIdentity : YesOrNo;
    IdentityGeneration : CharacterData;
    IdentityStart : CharacterData;
    IdentityIncrement : CharacterData;
    IdentityMaximum : CharacterData;
    IdentityMinimum : CharacterData;
    IdentityCycle : YesOrNo;
    IsGenerated : CharacterData;
    GenerationExpression : CharacterData;
    IsUpdatable : YesOrNo
  }.
End Columns.

Import Schemata Tables Columns.
(* Field names shared by [TTables] and [TColumns] are written with their
   module: [Tables.TableSchema], [Columns.TableSchema]. *)

(** The declarations again, as reflection sees them: for each field its
    name, its type, and the value of its [db] struct tag when the source
    writes one. *)
Record StructField : Type := field {
  FieldName : string;
  FieldType : DomainType;
  FieldTag : option string
}.

Definition tagged (name : string) (ty : DomainType) (tag : string) : StructField :=
  field name ty (Some tag).

Definition untagged (name : string) (ty : DomainType) : StructField :=
  field name ty None.

Definition TSchemata_fields : list StructField :=
  [ tagged "CatalogName" TSQLIdentifier "catalog_name";
    untagged "SchemaName" TSQLIdentifier;
    untagged "SchemaOwner" TSQLIdentifier;
    untagged "DefaultCharacterSetCatalog" TSQLIdentifier;
    untagged "DefaultCharacterSetSchema" TSQLIdentifier;
    untagged "DefaultCharacterSetName" TSQLIdentifier;
    untagged "SQLPath" TCharacterData ].

Definition TTables_fields : list StructField :=
  [ tagged "TableCatalog" TSQLIdentifier "table_catalog";
    tagged "TableSchema" TSQLIdentifier "table_schema";
    tagged "TableName" TSQLIdentifier "table_name";
    tagged "TableType" TCharacterData "table_type";
    tagged "SelfReferencingColumnName" TSQLIdentifier "self_referencing_column_name";
    tagged "ReferenceGeneration" TCharacterData "reference_generation";
    tagged "UserDefinedTypeCatalog" TSQLIdentifier "user_defined_type_catalog";
    tagged "UserDefinedTypeSchema" TSQLIdentifier "user_defined_type_schema";
    tagged "UserDefinedTypeName" TSQLIdentifier "user_defined_type_name";
    tagged "IsInsertableInto" TYesOrNo "is_insertable_into";
    tagged "IsTyped" TYesOrNo "is_typed";
    tagged "CommitAction" TCharacterData "commit_action" ].

Definition TColumns_fields : list StructField :=
  [ tagged "TableCatalog" TSQLIdentifier "table_catalog";
    tagged "TableSchema" TSQLIdentifier "table_schema";
    tagged "TableName" TSQLIdentifier "table_name";
    tagged "ColumnName" TSQLIdentifier "column_name";
    tagged "OrdinalPosition" TCardinalNumber "ordinal_position";
    tagged "ColumnDefault" TCharacterData "column_default";
    tagged "IsNullable" TYesOrNo "is_nullable";
    tagged "DataType" TCharacterData "data_type";
    tagged "CharacterMaximumLength" TCardinalNumber "character_maximum_length";
    tagged "CharacterOctetLength" TCardinalNumber "character_octet_length";
    tagged "NumericPrecision" TCardinalNumber "numeric_precision";
    tagged "NumericPrecisionRadix" TCardinalNumber "numeric_precision_radix";
    tagged "NumericScale" TCardinalNumber "numeric_scale";
    tagged "DatetimePrecision" TCardinalNumber "datetime_precision";
    tagged "IntervalType" TCharacterData "interval_type";
    tagged "IntervalPrecision" TCardinalNumber "interval_precision";
    tagged "CharacterSetCatalog" TSQLIdentifier "character_set_catalog";
    tagged "CharacterSetSchema" TSQLIdentifier "character_set_schema";
    tagged "CharacterSetName" TSQLIdentifier "character_set_name";
    tagged "CollationCatalog" TSQLIdentifier "collation_catalog";
    tagged "CollationSchema" TSQLIdentifier "collation_schema";
    tagged "CollationName" TSQLIdentifier "collation_name";
    tagged "DomainCatalog" TSQLIdentifier "domain_catalog";
    tagged "DomainSchema" TSQLIdentifier "domain_schema";
    tagged "DomainName" TSQLIdentifier "domain_name";
    tagged "UdtCatalog" TSQLIdentifier "udt_catalog";
    tagged "UdtSchema" TSQLIdentifier "udt_schema";
    tagged "UdtName" TSQLIdentifier "udt_name";
    tagged "ScopeCatalog" TSQLIdentifier "scope_catalog";
    tagged "ScopeSchema" TSQLIdentifier "scope_schema";
    tagged "ScopeName" TSQLIdentifier "scope_name";
    tagged "MaximumCardinality" TCardinalNumber "maximum_cardinality";
    tagged "DtdIdentifier" TSQLIdentifier "dtd_identifier";
    tagged "IsSelfReferencing" TYesOrNo "is_self_referencing";
    tagged "IsIdentity" TYesOrNo "is_identity";
    tagged "IdentityGeneration" TCharacterData "identity_generation";
    tagged "IdentityStart" TCharacterData "identity_start";
    tagged "IdentityIncrement" TCharacterData "identity_increment";
    tagged "IdentityMaximum" TCharacterData "identity_maximum";
    tagged "IdentityMinimum" TCharacterData "identity_minimum";
    tagged "IdentityCycle" TYesOrNo "identity_cycle";
    tagged "IsGenerated" TCharacterData "is_generated";
    tagged "GenerationExpression" TCharacterData "generation_expression";
    tagged "IsUpdatable" TYesOrNo "is_updatable" ].

(** A field is bound explicitly when it carries a [db] tag. *)
Definition has_tag (f : StructField) : bool :=
  match FieldTag f with Some _ => true | None => false end.

Definition untagged_fields (fs : list StructField) : list string :=
  map FieldName (filter (fun f => negb (has_tag f)) fs).

(** ** Errors and results *)

(** An [error] value, kept by its message. *)
Definition Error : Type := string.

Inductive Result (A : Type) : Type :=
| Ok (a : A)
| Err (e : Error).
Arguments Ok {A} a.
Arguments Err {A} e.

(** ** The logger (logrus) *)

Inductive LogLevel : Type :=
| PanicLevel | FatalLevel | ErrorLevel | WarnLevel | InfoLevel | DebugLevel.

(** The numeric order of the levels: a more severe level is smaller. *)
Definition level_rank (l : LogLevel) : nat :=
  match l with
  | PanicLevel => 0 | FatalLevel => 1 | ErrorLevel => 2
  | WarnLevel => 3 | InfoLevel => 4 | DebugLevel => 5
  end.

Record TextFormatter : Type := {
  ForceColors : bool;
  FullTimestamp : bool;
  TimestampFormat : string
}.

Record Logger : Type := {
  Formatter : TextFormatter;
  Level : LogLevel
}.

(** [logrus.New()]: the text formatter with its zero fields, level Info. *)
Definition logrus_New : Logger :=
  {| Formatter := {| ForceColors := false; FullTimestamp := false;
                     TimestampFormat := "" |};
     Level := InfoLevel |}.

(** The assignment [log.Formatter = f]. *)
Definition set_Formatter (log : Logger) (f : TextFormatter) : Logger :=
  {| Formatter := f; Level := Level log |}.

(** An entry is written when its level is at most the logger's. *)
Definition IsLevelEnabled (log : Logger) (lvl : LogLevel) : bool :=
  Nat.leb (level_rank lvl) (level_rank (Level log)).

(** A written log entry: level, message, and the [error] field set by
    [WithError]. *)
Record Entry : Type := entry {
  EntryLevel : LogLevel;
  Message : string;
  ErrorField : option Error
}.

(** [fmt.Sprintf] for formats whose only verb is [%s]. *)
Fixpoint Sprintf (format : string) (a : list string) : string :=
  match format with
  | EmptyString => EmptyString
  | String "%" (String "s" rest) =>
      match a with
      | x :: a' => x ++ Sprintf rest a'
      | [] => "%!s(MISSING)" ++ Sprintf rest []
      end
  | String c rest => String c (Sprintf rest a)
  end.

(** ** Processes: trace, logger output, deferred calls, exit *)

(** What the program does to the outside, in order.  [ELog] is a call on
    the logger, whether or not the logger writes it. *)
Inductive Event : Type :=
| EOpen (driver dsn : string)
| EQuery (sql : string) (args : list string)
| ELog (lvl : LogLevel) (msg : string) (err : option Error)
| EClose
| EExit (code : Z).

(** The calls [main] defers. *)
Inductive DeferredCall : Type :=
| dbConn_Close.

Record State : Type := {
  trace : list Event;
  stderr : list Entry;
  defers : list DeferredCall
}.

Definition init : State := {| trace := []; stderr := []; defers := [] |}.

(** How a statement ends: control goes on, the function returns, or the
    process has exited. *)
Inductive Flow (A : Type) : Type :=
| Next (a : A)
| Return
| Exited (code : Z).
Arguments Next {A} a.
Arguments Return {A}.
Arguments Exited {A} code.

Definition Proc (A : Type) : Type := State -> Flow A * State.

Definition ret {A : Type} (a : A) : Proc A := fun s => (Next a, s).

Definition bind {A B : Type} (p : Proc A) (k : A -> Proc B) : Proc B :=
  fun s =>
    match p s with
    | (Next a, s') => k a s'
    | (Return, s') => (Return, s')
    | (Exited code, s') => (Exited code, s')
    end.

Notation "x <- p ;; k" := (bind p (fun x => k))
  (at level 61, p at next level, right associativity).
Notation "p ;; k" := (bind p (fun _ => k))
  (at level 61, right associativity).

Definition emit (e : Event) : Proc unit :=
  fun s => (Next tt, {| trace := trace s ++ [e]; stderr := stderr s;
                        defers := defers s |}).

(** The [defer] statement: the call is pushed, to run when [main] returns. *)
Definition defer (c : DeferredCall) : Proc unit :=
  fun s => (Next tt, {| trace := trace s; stderr := stderr s;
                        defers := c :: defers s |}).

(** The [return] statement. *)
Definition return_ {A : Type} : Proc A := fun s => (Return, s).

(** [os.Exit]: the process ends at once; deferred calls are not run. *)
Definition os_Exit {A : Type} (code : Z) : Proc A :=
  fun s => (Exited code, {| trace := trace s ++ [EExit code];
                            stderr := stderr s; defers := defers s |}).

(** A call on the logger at level [lvl]; the entry reaches the output when
    the level is enabled. *)
Definition Logger_log (log : Logger) (lvl : LogLevel) (msg : string)
    (err : option Error) : Proc unit :=
  fun s => (Next tt,
            {| trace := trace s ++ [ELog lvl msg err];
               stderr := if IsLevelEnabled log lvl
                         then stderr s ++ [entry lvl msg err]
                         else stderr s;
               defers := defers s |}).

Definition Infof (log : Logger) (format : string) (a : list string) : Proc unit :=
  Logger_log log InfoLevel (Sprintf format a) None.

Definition Debugf (log : Logger) (format : string) (a : list string) : Proc unit :=
  Logger_log log DebugLevel (Sprintf format a) None.

Definition Warn (log : Logger) (msg : string) : Proc unit :=
  Logger_log log WarnLevel msg None.

(** [log.WithError(err).Fatal(msg)]: the entry, then [os.Exit(1)]. *)
Definition WithError_Fatal {A : Type} (log : Logger) (err : Error)
    (msg : string) : Proc A :=
  Logger_log log FatalLevel msg (Some err) ;; os_Exit 1.

(** [for _, v := range l { body }]. *)
Fixpoint for_range {A : Type} (l : list A) (body : A -> Proc unit) : Proc unit :=
  match l with
  | [] => ret tt
  | v :: l' => body v ;; for_range l' body
  end.

(** ** The outside world *)

(** The flags that [flag.Parse] has accepted and set, in the order of the
    command line, each with its value ([flag_Parse] below gives them from
    the arguments, or ends the process). *)
Definition FlagSet : Type := list (string * string).

(** [*flag.String(name, value, usage)] once [flag.Parse()] has returned:
    the value of the last occurrence of the flag among those set, or the
    default. *)
Definition flag_String (args : FlagSet) (name value : string) : string :=
  fold_left (fun acc kv => if String.eqb (fst kv) name then snd kv else acc)
            args value.

(** The driver and the database, as an oracle: what opening answers for a
    driver name and a connection string, what the catalog-name query
    answers, and what each of the three listing queries answers for its
    argument, already decoded into the record type it is loaded into. *)
Record World : Type := {
  open_db : string -> string -> option Error;
  load_catalog_name : Result string;
  load_schemata : list string -> Result (list TSchemata);
  load_tables : list string -> Result (list TTables);
  load_columns : list string -> Result (list TColumns)
}.

Definition sql_catalog_name : string :=
  "SELECT * FROM information_schema.information_schema_catalog_name".
Definition sql_schemata : string :=
  "SELECT * FROM information_schema.schemata WHERE schema_name IN ?".
Definition sql_tables : string :=
  "SELECT * FROM information_schema.tables WHERE table_schema IN ?".
Definition sql_columns : string :=
  "SELECT * FROM information_schema.columns WHERE table_schema IN ?".

(** [dbr.Open(driver, dsn, nil)]: the error, if any. *)
Definition dbr_Open (w : World) (driver dsn : string) : Proc (option Error) :=
  emit (EOpen driver dsn) ;; ret (open_db w driver dsn).

(** [dbS.Select("*").From(table).LoadOne(&dbName)]. *)
Definition LoadOne_dbName (w : World) : Proc (Result string) :=
  emit (EQuery sql_catalog_name []) ;; ret (load_catalog_name w).

(** [dbS.SelectBySql(sql, whitelist).Load(&rows)], for each record type.
    The count [n] that [Load] returns is the number of rows loaded. *)
Definition Load_schemas (w : World) (sql : string) (whitelist : list string)
    : Proc (Result (list TSchemata)) :=
  emit (EQuery sql whitelist) ;; ret (load_schemata w whitelist).

Definition Load_tables (w : World) (sql : string) (whitelist : list string)
    : Proc (Result (list TTables)) :=
  emit (EQuery sql whitelist) ;; ret (load_tables w whitelist).

Definition Load_columns (w : World) (sql : string) (whitelist : list string)
    : Proc (Result (list TColumns)) :=
  emit (EQuery sql whitelist) ;; ret (load_columns w whitelist).

(** ** main (inspect.go, lines 114-181) *)

Definition schemaWhitelist : list string := ["swipe"].

(** The body of [main], statement by statement, for a command line that
    [flag.Parse()] has accepted, [args] being the flags it set ([process]
    below starts from the arguments).  [dbConn.NewSession(nil)]
    only builds the session value and leaves no event.  Each [if err != nil]
    is the [Err]/[Some] branch of the match on the call's result; the count
    [n] tested against 0 is the length of the loaded slice. *)
Definition main (w : World) (args : FlagSet) : Proc unit :=
  let connStr := flag_String args "db" "" in
  let log := set_Formatter logrus_New
               {| ForceColors := true; FullTimestamp := true;
                  TimestampFormat := "Jan 02, 15:04:06" |} in
  err <- dbr_Open w "postgres" connStr ;;
  match err with
  | Some err => WithError_Fatal log err "Cannot connect to db"
  | None => ret tt
  end ;;
  defer dbConn_Close ;;
  r <- LoadOne_dbName w ;;
  match r with
  | Err err => WithError_Fatal log err "load database name"
  | Ok dbName =>
  Infof log "db name: %s" [dbName] ;;
  r <- Load_schemas w sql_schemata schemaWhitelist ;;
  match r with
  | Err err => WithError_Fatal log err "select schemas"
  | Ok schemas =>
  (if Nat.eqb (length schemas) 0
   then Warn log "no schemas available" ;; return_
   else ret tt) ;;
  for_range schemas (fun v =>
    Debugf log "schema %s owned by %s"
      [NullString.String (SchemaName v); NullString.String (SchemaOwner v)]) ;;
  r <- Load_tables w sql_tables schemaWhitelist ;;
  match r with
  | Err err => WithError_Fatal log err "select tables"
  | Ok tables =>
  (if Nat.eqb (length tables) 0
   then Warn log "no tables available" ;; return_
   else ret tt) ;;
  for_range tables (fun v =>
    Debugf log "table %s.%s type %s"
      [NullString.String (Tables.TableSchema v);
       NullString.String (Tables.TableName v);
       NullString.String (Tables.TableType v)]) ;;
  r <- Load_columns w sql_columns schemaWhitelist ;;
  match r with
  | Err err => WithError_Fatal log err "select columns"
  | Ok columns =>
  (if Nat.eqb (length columns) 0
   then Warn log "no columns available" ;; return_
   else ret tt) ;;
  for_range columns (fun v =>
    Debugf log "column %s.%s.%s"
      [NullString.String (Columns.TableSchema v);
       NullString.String (Columns.TableName v);
       NullString.String (Columns.ColumnName v)])
  end end end end.

(** ** Running the process *)

(** The deferred calls, last deferred first.  [dbConn.Close()] closes the
    connection; its result is dropped. *)
Fixpoint run_defers (ds : list DeferredCall) : Proc unit :=
  match ds with
  | [] => ret tt
  | dbConn_Close :: ds' => emit EClose ;; run_defers ds'
  end.

(** A finished run: the events in order, the entries the logger wrote, and
    the exit status. *)
Record Run : Type := {
  events : list Event;
  output : list Entry;
  status : Z
}.

(** When [main] returns, its deferred calls run and the process exits with
    status 0; after [os.Exit] nothing more runs. *)
Definition exec (p : Proc unit) : Run :=
  match p init with
  | (Exited code, s) =>
      {| events := trace s; output := stderr s; status := code |}
  | (_, s) =>
      let s' := snd (run_defers (defers s) s) in
      {| events := trace s'; output := stderr s'; status := 0 |}
  end.

Definition run (w : World) (args : FlagSet) : Run := exec (main w args).

(** ** The three listing queries over a catalog *)

(** The predicate [x IN whitelist] of the [WHERE] clauses: text equality
    with some element; a NULL [x] matches nothing. *)
Definition sql_in (x : SQLIdentifier) (whitelist : list string) : bool :=
  NullString.Valid x && existsb (String.eqb (NullString.String x)) whitelist.

(** The rows of the three information-schema views and the catalog's name. *)
Record Catalog : Type := {
  catalog_name : string;
  schemata : list TSchemata;
  tables : list TTables;
  columns : list TColumns
}.

(** [SELECT * FROM information_schema.schemata WHERE schema_name IN ?] *)
Definition ListSchemas (whitelist : list string) (view : list TSchemata)
    : list TSchemata :=
  filter (fun r => sql_in (SchemaName r) whitelist) view.

(** [SELECT * FROM information_schema.tables WHERE table_schema IN ?] *)
Definition ListTables (whitelist : list string) (view : list TTables)
    : list TTables :=
  filter (fun r => sql_in (Tables.TableSchema r) whitelist) view.

(** [SELECT * FROM information_schema.columns WHERE table_schema IN ?] *)
Definition ListColumns (whitelist : list string) (view : list TColumns)
    : list TColumns :=
  filter (fun r => sql_in (Columns.TableSchema r) whitelist) view.

(** A reachable database holding catalog [c]: every call succeeds and each
    query is answered from the views. *)
Definition catalog_world (c : Catalog) : World :=
  {| open_db := fun _ _ => None;
     load_catalog_name := Ok (catalog_name c);
     load_schemata := fun ws => Ok (ListSchemas ws (schemata c));
     load_tables := fun ws => Ok (ListTables ws (tables c));
     load_columns := fun ws => Ok (ListColumns ws (columns c)) |}.

(** *** Rows by example *)

Definition ident (s : string) : NullString.t := NullString.mk s true.
Definition null_string : NullString.t := NullString.mk "" false.
Definition cardinal (n : Z) : NullInt64.t := NullInt64.mk n true.
Definition null_int64 : NullInt64.t := NullInt64.mk 0 false.

(** A schemata row as PostgreSQL gives it: the character-set fields and
    the path are NULL. *)
Definition schema_row (catalog name owner : string) : TSchemata :=
  Schemata.mk (ident catalog) (ident name) (ident owner)
    null_string null_string null_string null_string.

(** A base table that is not a typed table. *)
Definition table_row (catalog schema name : string) : TTables :=
  Tables.mk (ident catalog) (ident schema) (ident name) (ident "BASE TABLE")
    null_string null_string null_string null_string null_string
    (ident "YES") (ident "NO") null_string.

(** A column of a built-in type, at the given ordinal position. *)
Definition column_row (catalog schema table name : string) (pos : Z)
    (nullable data_type : string) : TColumns :=
  Columns.mk (ident catalog) (ident schema) (ident table) (ident name)
    (cardinal pos) null_string (ident nullable) (ident data_type)
    null_int64 null_int64 null_int64 null_int64 null_int64 null_int64
    null_string null_int64
    null_string null_string null_string
    null_string null_string null_string
    null_string null_string null_string
    (ident catalog) (ident "pg_catalog") (ident data_type)
    null_string null_string null_string
    null_int64 (ident "1")
    (ident "NO") (ident "NO")
    null_string null_string null_string null_string null_string
    (ident "NO") (ident "NEVER") null_string (ident "YES").

(** *** The ordinal-position invariant *)

Definition NullString_eqb (a b : NullString.t) : bool :=
  String.eqb (NullString.String a) (NullString.String b)
  && Bool.eqb (NullString.Valid a) (NullString.Valid b).

(** The (catalog, schema, table) key of a column row. *)
Definition TableKey : Type := (SQLIdentifier * SQLIdentifier * SQLIdentifier)%type.

Definition column_key (r : TColumns) : TableKey :=
  (Columns.TableCatalog r, Columns.TableSchema r, Columns.TableName r).

Definition key_schema (k : TableKey) : SQLIdentifier := snd (fst k).

Definition key_eqb (a b : TableKey) : bool :=
  NullString_eqb (fst (fst a)) (fst (fst b))
  && NullString_eqb (snd (fst a)) (snd (fst b))
  && NullString_eqb (snd a) (snd b).

(** The rows of one table. *)
Definition columns_of (k : TableKey) (rows : list TColumns) : list TColumns :=
  filter (fun r => key_eqb (column_key r) k) rows.

(** The positions 1, ..., n, as non-null cardinal numbers. *)
Definition positions (n : nat) : list CardinalNumber :=
  map (fun i => cardinal (Z.of_nat i)) (seq 1 n).

(** Within every key the ordinal positions are, as a multiset, exactly
    1, ..., N for N the number of rows of that key. *)
Definition ordinals_contiguous (rows : list TColumns) : Prop :=
  forall k : TableKey,
    Permutation (map OrdinalPosition (columns_of k rows))
                (positions (length (columns_of k rows))).

(** ** Vocabulary for the theorems about [main] *)

(** The four queries, in the order of the source. *)
Inductive Stage : Type :=
| CatalogNameStage | SchemataStage | TablesStage | ColumnsStage.

Definition stage_query (st : Stage) : Event :=
  match st with
  | CatalogNameStage => EQuery sql_catalog_name []
  | SchemataStage => EQuery sql_schemata schemaWhitelist
  | TablesStage => EQuery sql_tables schemaWhitelist
  | ColumnsStage => EQuery sql_columns schemaWhitelist
  end.

Definition stage_index (st : Stage) : nat :=
  match st with
  | CatalogNameStage => 0 | SchemataStage => 1
  | TablesStage => 2 | ColumnsStage => 3
  end.

Definition all_stages : list Stage :=
  [CatalogNameStage; SchemataStage; TablesStage; ColumnsStage].

Definition row_count {A : Type} (r : Result (list A)) : Result nat :=
  match r with
  | Ok rows => Ok (length rows)
  | Err e => Err e
  end.

(** What the world answers at a stage: an error, or a number of rows (the
    catalog name, when it is found, is one row). *)
Definition answer (w : World) (st : Stage) : Result nat :=
  match st with
  | CatalogNameStage =>
      match load_catalog_name w with
      | Ok _ => Ok 1
      | Err e => Err e
      end
  | SchemataStage => row_count (load_schemata w schemaWhitelist)
  | TablesStage => row_count (load_tables w schemaWhitelist)
  | ColumnsStage => row_count (load_columns w schemaWhitelist)
  end.

(** The message [main] logs before exiting when the stage's query fails. *)
Definition fatal_message (st : Stage) : string :=
  match st with
  | CatalogNameStage => "load database name"
  | SchemataStage => "select schemas"
  | TablesStage => "select tables"
  | ColumnsStage => "select columns"
  end.

(** The warning [main] logs when a listing stage has no rows. *)
Definition warning (st : Stage) : string :=
  match st with
  | CatalogNameStage => ""
  | SchemataStage => "no schemas available"
  | TablesStage => "no tables available"
  | ColumnsStage => "no columns available"
  end.

Definition is_query (e : Event) : bool :=
  match e with
  | EQuery _ _ => true
  | _ => false
  end.

(** The queries of a trace, in the order they were issued. *)
Definition queries (tr : list Event) : list Event := filter is_query tr.

(** The per-row summaries of the three loops of [main]. *)
Definition schema_line (v : TSchemata) : string :=
  Sprintf "schema %s owned by %s"
    [NullString.String (SchemaName v); NullString.String (SchemaOwner v)].

Definition table_line (v : TTables) : string :=
  Sprintf "table %s.%s type %s"
    [NullString.String (Tables.TableSchema v);
     NullString.String (Tables.TableName v);
     NullString.String (Tables.TableType v)].

Definition column_line (v : TColumns) : string :=
  Sprintf "column %s.%s.%s"
    [NullString.String (Columns.TableSchema v);
     NullString.String (Columns.TableName v);
     NullString.String (Columns.ColumnName v)].

Definition debug_call (msg : string) : Event := ELog DebugLevel msg None.

(** The logger output has an entry with this message. *)
Definition emits (r : Run) (msg : string) : Prop :=
  exists e : Entry, In e (output r) /\ Message e = msg.

(** A run in which the connection opens, all four queries succeed and each
    listing has rows. *)
Definition successful (w : World) (args : FlagSet) (dbName : string)
    (ss : list TSchemata) (ts : list TTables) (cs : list TColumns) : Prop :=
  open_db w "postgres" (flag_String args "db" "") = None
  /\ load_catalog_name w = Ok dbName
  /\ load_schemata w schemaWhitelist = Ok ss /\ ss <> []
  /\ load_tables w schemaWhitelist = Ok ts /\ ts <> []
  /\ load_columns w schemaWhitelist = Ok cs /\ cs <> [].

(** The trace of a run up to each stage. *)
Definition upto_name (connStr dbName : string) : list Event :=
  [EOpen "postgres" connStr; stage_query CatalogNameStage;
   ELog InfoLevel (Sprintf "db name: %s" [dbName]) None].

Definition upto_schemas (connStr dbName : string) (ss : list TSchemata)
    : list Event :=
  upto_name connStr dbName
  ++ stage_query SchemataStage :: map (fun v => debug_call (schema_line v)) ss.

Definition upto_tables (connStr dbName : string) (ss : list TSchemata)
    (ts : list TTables) : list Event :=
  upto_schemas connStr dbName ss
  ++ stage_query TablesStage :: map (fun v => debug_call (table_line v)) ts.

Definition upto_columns (connStr dbName : string) (ss : list TSchemata)
    (ts : list TTables) (cs : list TColumns) : list Event :=
  upto_tables connStr dbName ss ts
  ++ stage_query ColumnsStage :: map (fun v => debug_call (column_line v)) cs.

(** The two ways a stage ends a run early. *)
Definition fatal_exit (st : Stage) (e : Error) : list Event :=
  [ELog FatalLevel (fatal_message st) (Some e); EExit 1].

Definition warn_return (st : Stage) : list Event :=
  [ELog WarnLevel (warning st) None; EClose].

Definition info_entry (dbName : string) : Entry :=
  entry InfoLevel (Sprintf "db name: %s" [dbName]) None.

Definition fatal_entry (st : Stage) (e : Error) : Entry :=
  entry FatalLevel (fatal_message st) (Some e).

Definition warn_entry (st : Stage) : Entry :=
  entry WarnLevel (warning st) None.

Section Outcomes.

Variable w : World.
Variable args : FlagSet.

Let connStr : string := flag_String args "db" "".

(** The nine paths through [main], each with the run it produces. *)
Inductive Outcome : Run -> Prop :=
| open_failed : forall e,
    open_db w "postgres" connStr = Some e ->
    Outcome {| events := [EOpen "postgres" connStr;
                          ELog FatalLevel "Cannot connect to db" (Some e);
                          EExit 1];
               output := [entry FatalLevel "Cannot connect to db" (Some e)];
               status := 1 |}
| name_failed : forall e,
    open_db w "postgres" connStr = None ->
    load_catalog_name w = Err e ->
    Outcome {| events := [EOpen "postgres" connStr]
                         ++ stage_query CatalogNameStage
                            :: fatal_exit CatalogNameStage e;
               output := [fatal_entry CatalogNameStage e];
               status := 1 |}
| schemas_failed : forall dbName e,
    open_db w "postgres" connStr = None ->
    load_catalog_name w = Ok dbName ->
    load_schemata w schemaWhitelist = Err e ->
    Outcome {| events := upto_name connStr dbName
                         ++ stage_query SchemataStage
                            :: fatal_exit SchemataStage e;
               output := [info_entry dbName; fatal_entry SchemataStage e];
               status := 1 |}
| no_schemas : forall dbName,
    open_db w "postgres" connStr = None ->
    load_catalog_name w = Ok dbName ->
    load_schemata w schemaWhitelist = Ok [] ->
    Outcome {| events := upto_name connStr dbName
                         ++ stage_query SchemataStage
                            :: warn_return SchemataStage;
               output := [info_entry dbName; warn_entry SchemataStage];
               status := 0 |}
| tables_failed : forall dbName ss e,
    open_db w "postgres" connStr = None ->
    load_catalog_name w = Ok dbName ->
    load_schemata w schemaWhitelist = Ok ss -> ss <> [] ->
    load_tables w schemaWhitelist = Err e ->
    Outcome {| events := upto_schemas connStr dbName ss
                         ++ stage_query TablesStage
                            :: fatal_exit TablesStage e;
               output := [info_entry dbName; fatal_entry TablesStage e];
               status := 1 |}
| no_tables : forall dbName ss,
    open_db w "postgres" connStr = None ->
    load_catalog_name w = Ok dbName ->
    load_schemata w schemaWhitelist = Ok ss -> ss <> [] ->
    load_tables w schemaWhitelist = Ok [] ->
    Outcome {| events := upto_schemas connStr dbName ss
                         ++ stage_query TablesStage
                            :: warn_return TablesStage;
               output := [info_entry dbName; warn_entry TablesStage];
               status := 0 |}
| columns_failed : forall dbName ss ts e,
    open_db w "postgres" connStr = None ->
    load_catalog_name w = Ok dbName ->
    load_schemata w schemaWhitelist = Ok ss -> ss <> [] ->
    load_tables w schemaWhitelist = Ok ts -> ts <> [] ->
    load_columns w schemaWhitelist = Err e ->
    Outcome {| events := upto_tables connStr dbName ss ts
                         ++ stage_query ColumnsStage
                            :: fatal_exit ColumnsStage e;
               output := [info_entry dbName; fatal_entry ColumnsStage e];
               status := 1 |}
| no_columns : forall dbName ss ts,
    open_db w "postgres" connStr = None ->
    load_catalog_name w = Ok dbName ->
    load_schemata w schemaWhitelist = Ok ss -> ss <> [] ->
    load_tables w schemaWhitelist = Ok ts -> ts <> [] ->
    load_columns w schemaWhitelist = Ok [] ->
    Outcome {| events := upto_tables connStr dbName ss ts
                         ++ stage_query ColumnsStage
                            :: warn_return ColumnsStage;
               output := [info_entry dbName; warn_entry ColumnsStage];
               status := 0 |}
| completed : forall dbName ss ts cs,
    open_db w "postgres" connStr = None ->
    load_catalog_name w = Ok dbName ->
    load_schemata w schemaWhitelist = Ok ss -> ss <> [] ->
    load_tables w schemaWhitelist = Ok ts -> ts <> [] ->
    load_columns w schemaWhitelist = Ok cs -> cs <> [] ->
    Outcome {| events := upto_columns connStr dbName ss ts cs ++ [EClose];
               output := [info_entry dbName];
               status := 0 |}.

End Outcomes.

(** ** Example catalogs and worlds *)

(** The catalog of the spec's end-to-end scenario, [swipe.users(id integer
    not null, name text)], next to two schemas whose names only resemble
    the whitelisted one. *)
Definition users_columns : list TColumns :=
  [ column_row "appdb" "swipe" "users" "id" 1 "NO" "integer";
    column_row "appdb" "swipe" "users" "name" 2 "YES" "text" ].

Definition users_catalog : Catalog :=
  {| catalog_name := "appdb";
     schemata := [ schema_row "appdb" "swipe" "postgres";
                   schema_row "appdb" "swipe2" "bob";
                   schema_row "appdb" "Swipe" "bob" ];
     tables := [ table_row "appdb" "swipe" "users" ];
     columns := users_columns |}.

(** The columns view of [swipe.users] after its second column was dropped
    and [name] added: the positions are 1 and 3. *)
Definition gap_columns : list TColumns :=
  [ column_row "appdb" "swipe" "users" "id" 1 "NO" "integer";
    column_row "appdb" "swipe" "users" "name" 3 "YES" "text" ].

Definition users_key : TableKey := (ident "appdb", ident "swipe", ident "users").

(** A world whose database handle opens but whose server refuses the
    first query. *)
Definition refusing_world : World :=
  {| open_db := fun _ _ => None;
     load_catalog_name := Err "dial tcp 127.0.0.1:5432: connection refused";
     load_schemata := fun _ => Ok [];
     load_tables := fun _ => Ok [];
     load_columns := fun _ => Ok [] |}.

(** A catalog without the whitelisted schema. *)
Definition other_catalog : Catalog :=
  {| catalog_name := "appdb";
     schemata := [ schema_row "appdb" "public" "postgres" ];
     tables := [ table_row "appdb" "public" "users" ];
     columns := [] |}.

(** A world whose tables query fails after the schemata were listed. *)
Definition failing_tables_world : World :=
  {| open_db := fun _ _ => None;
     load_catalog_name := Ok "appdb";
     load_schemata := fun ws => Ok (ListSchemas ws (schemata users_catalog));
     load_tables := fun _ => Err "pq: permission denied for relation tables";
     load_columns := fun _ => Ok [] |}.

(** ** The claims that the code does not meet, as propositions *)

(** Every listing of columns has contiguous ordinal positions per table. *)
Definition ordinals_always_contiguous : Prop :=
  forall (whitelist : list string) (view : list TColumns),
    ordinals_contiguous (ListColumns whitelist view).

(** Every successful run writes the catalog-name line and one summary line
    per returned row. *)
Definition per_row_lines_emitted : Prop :=
  forall w args dbName ss ts cs,
    successful w args dbName ss ts cs ->
    emits (run w args) (Sprintf "db name: %s" [dbName])
    /\ (forall v, In v ss -> emits (run w args) (schema_line v))
    /\ (forall v, In v ts -> emits (run w args) (table_line v))
    /\ (forall v, In v cs -> emits (run w args) (column_line v)).

(** The connection is closed on every path on which it was opened. *)
Definition Close_on_every_exit : Prop :=
  forall w args,
    open_db w "postgres" (flag_String args "db" "") = None ->
    In EClose (events (run w args)).

(** ** Further vocabulary for [main] *)

(** Events that use the open connection or the logger. *)
Definition query_or_log (e : Event) : bool :=
  match e with
  | EQuery _ _ | ELog _ _ _ => true
  | _ => false
  end.

(** The payloads [main] reads from a row of each kind. *)
Definition same_schema_payloads (a b : TSchemata) : Prop :=
  NullString.String (SchemaName a) = NullString.String (SchemaName b)
  /\ NullString.String (SchemaOwner a) = NullString.String (SchemaOwner b).

Definition same_table_payloads (a b : TTables) : Prop :=
  NullString.String (Tables.TableSchema a) = NullString.String (Tables.TableSchema b)
  /\ NullString.String (Tables.TableName a) = NullString.String (Tables.TableName b)
  /\ NullString.String (Tables.TableType a) = NullString.String (Tables.TableType b).

Definition same_column_payloads (a b : TColumns) : Prop :=
  NullString.String (Columns.TableSchema a) = NullString.String (Columns.TableSchema b)
  /\ NullString.String (Columns.TableName a) = NullString.String (Columns.TableName b)
  /\ NullString.String (Columns.ColumnName a) = NullString.String (Columns.ColumnName b).

(** Two answers to a listing query that fail alike, or hold as many rows,
    related pairwise. *)
Inductive same_answer {A : Type} (R : A -> A -> Prop)
    : Result (list A) -> Result (list A) -> Prop :=
| same_error : forall e, same_answer R (Err e) (Err e)
| same_rows : forall l l', Forall2 R l l' -> same_answer R (Ok l) (Ok l').

(** Two worlds that [main], run with [args], cannot tell apart by the
    payloads it reads. *)
Definition same_payloads (w w' : World) (args : FlagSet) : Prop :=
  open_db w "postgres" (flag_String args "db" "")
  = open_db w' "postgres" (flag_String args "db" "")
  /\ load_catalog_name w = load_catalog_name w'
  /\ same_answer same_schema_payloads
       (load_schemata w schemaWhitelist) (load_schemata w' schemaWhitelist)
  /\ same_answer same_table_payloads
       (load_tables w schemaWhitelist) (load_tables w' schemaWhitelist)
  /\ same_answer same_column_payloads
       (load_columns w schemaWhitelist) (load_columns w' schemaWhitelist).

(** The (catalog, schema, table) key of a table row. *)
Definition table_key (t : TTables) : TableKey :=
  (Tables.TableCatalog t, Tables.TableSchema t, Tables.TableName t).

(** Every column row of the catalog belongs to a table row of it. *)
Definition columns_have_tables (ts : list TTables) (cs : list TColumns) : Prop :=
  forall c, In c cs -> exists t, In t ts /\ table_key t = column_key c.

(** Two worlds with one schema [swipe] and nothing in it: its owner is
    NULL in the first and the empty string in the second. *)
Definition null_owner_world : World :=
  {| open_db := fun _ _ => None;
     load_catalog_name := Ok "appdb";
     load_schemata := fun _ =>
       Ok [Schemata.mk (ident "appdb") (ident "swipe") null_string
             null_string null_string null_string null_string];
     load_tables := fun _ => Ok [];
     load_columns := fun _ => Ok [] |}.

Definition empty_owner_world : World :=
  {| open_db := fun _ _ => None;
     load_catalog_name := Ok "appdb";
     load_schemata := fun _ =>
       Ok [Schemata.mk (ident "appdb") (ident "swipe") (ident "")
             null_string null_string null_string null_string];
     load_tables := fun _ => Ok [];
     load_columns := fun _ => Ok [] |}.

(** ** The request body of the second program (lines 210-236) *)

(** Go's [int] on a 64-bit target: sums and differences wrap around. *)
Definition int_max : Z := (2 ^ 63 - 1)%Z.
Definition int_min : Z := (- 2 ^ 63)%Z.

Definition wrap_int (z : Z) : Z := ((z + 2 ^ 63) mod 2 ^ 64 - 2 ^ 63)%Z.

(** [customReader]: [iter] bytes handed out so far, of [size]. *)
Record customReader : Type := {
  iter : Z;
  size : Z
}.

Definition io_EOF : Error := "EOF".

(** What one call of [rand.Read] has to give: the bytes it can produce and
    its error. *)
Record RandAnswer : Type := {
  rand_bytes : list Byte.byte;
  rand_err : option Error
}.

(** [rand.Read(dst)]: the bytes are written at the front of [dst], as many
    as there are and as fit; the count written and the error are returned. *)
Definition rand_Read (ans : RandAnswer) (dst : list Byte.byte)
    : list Byte.byte * Z * option Error :=
  let n := Nat.min (length (rand_bytes ans)) (length dst) in
  (firstn n (rand_bytes ans) ++ skipn n dst, Z.of_nat n, rand_err ans).

(** [len(b)]. *)
Definition len (b : list Byte.byte) : Z := Z.of_nat (length b).

(** How a call of [Read] ends: it returns [(n, err)], leaving the reader
    and the buffer as given, or the slice expression panics. *)
Inductive ReadOutcome : Type :=
| ReadReturns (n : Z) (err : option Error) (r' : customReader)
    (b' : list Byte.byte)
| ReadPanics (r' : customReader).

(** [func (r *customReader) Read(b []byte) (int, error)].  The slice
    [b[:maxRead]] shares its bytes with [b]; it panics for a negative
    bound. *)
Definition Read (r : customReader) (b : list Byte.byte) (ans : RandAnswer)
    : ReadOutcome :=
  let maxRead := wrap_int (size r - iter r) in
  if (maxRead =? 0)%Z then ReadReturns 0 (Some io_EOF) r b
  else
    let maxRead := if (maxRead >? len b)%Z then len b else maxRead in
    if (maxRead <? 0)%Z then ReadPanics r
    else
      let '(dst, n, err) := rand_Read ans (firstn (Z.to_nat maxRead) b) in
      ReadReturns n err
        {| iter := wrap_int (iter r + maxRead); size := size r |}
        (dst ++ skipn (Z.to_nat maxRead) b).

(** [func (r *customReader) Close() error]: nothing is reset. *)
Definition Close (r : customReader) : customReader * option Error :=
  (r, None).

(** [func (r *customReader) Reset()]. *)
Definition Reset (r : customReader) : customReader :=
  {| iter := 0; size := size r |}.

(** A reader that can be read: both fields in range, [iter] between 0 and
    [size]. *)
Definition readable (r : customReader) : Prop :=
  (0 <= iter r <= size r)%Z /\ (size r <= int_max)%Z.

(** The record of successive calls of [Read], each with its buffer and the
    random source's answer: what each call returned, the reader at the end,
    and whether a call panicked (which ends the sequence). *)
Record ReadLog : Type := {
  returned : list (Z * option Error);
  final : customReader;
  panicked : bool
}.

Fixpoint reads (r : customReader) (calls : list (list Byte.byte * RandAnswer))
    : ReadLog :=
  match calls with
  | [] => {| returned := []; final := r; panicked := false |}
  | (b, ans) :: rest =>
      match Read r b ans with
      | ReadPanics r' => {| returned := []; final := r'; panicked := true |}
      | ReadReturns n err r' _ =>
          let l := reads r' rest in
          {| returned := (n, err) :: returned l;
             final := final l;
             panicked := panicked l |}
      end
  end.

(** The bytes a sequence of calls reported, in total. *)
Definition total_read (l : ReadLog) : Z :=
  fold_right (fun p acc => (fst p + acc)%Z) 0%Z (returned l).

(** A call whose random source fills any buffer of up to [k] bytes and
    reports no error. *)
Definition fills (k : nat) (call : list Byte.byte * RandAnswer) : Prop :=
  length (fst call) = k
  /\ k <= length (rand_bytes (snd call))
  /\ rand_err (snd call) = None.

(** A body of five bytes, a buffer of [k] zero bytes, and a random source
    that has eight bytes to give. *)
Definition five_bytes : customReader := {| iter := 0; size := 5 |}.

Definition zeros (k : nat) : list Byte.byte := repeat Byte.x00 k.

Definition eight_random : RandAnswer :=
  {| rand_bytes := repeat Byte.xa5 8; rand_err := None |}.

(** A source that fails after one byte. *)
Definition failing_random : RandAnswer :=
  {| rand_bytes := [Byte.xa5]; rand_err := Some "unexpected EOF" |}.

(** ** The command line: [flag.Parse] (inspect.go, line 116) *)

(** How [flag.Parse()] ends on the command-line flag set, whose only flag
    is the string flag [db]: the flags it has set, in order; an error, for
    which it prints the message and the usage and calls [os.Exit(2)]; or
    the help request [-h] / [-help], for which it prints the usage and
    exits. *)
Inductive ParseOutcome : Type :=
| Parsed (flags : FlagSet)
| ParseFails (msg : string)
| ParseHelp.

(** [name=value], cut at the first [=]. *)
Fixpoint cut_at_equals (s : string) : string * option string :=
  match s with
  | EmptyString => (EmptyString, None)
  | String c rest =>
      if Ascii.eqb c "=" then (EmptyString, Some rest)
      else let (n, v) := cut_at_equals rest in (String c n, v)
  end.

(** The flag name and the value written with it; the search for [=]
    starts at the second character. *)
Definition split_name (name : string) : string * option string :=
  match name with
  | EmptyString => (EmptyString, None)
  | String c rest => let (n, v) := cut_at_equals rest in (String c n, v)
  end.

(** The parsing loop.  An argument that is not of the form [-x...] ends
    the flags, and so does [--]; a name starting with [-] or [=] is bad
    syntax; [db] takes its value from [=value] or from the next argument;
    any other name is not defined. *)
Fixpoint flag_parse (args : list string) (set : FlagSet) : ParseOutcome :=
  match args with
  | [] => Parsed set
  | s :: rest =>
      match s with
      | String "-" (String c1 s2 as s1) =>
          if Ascii.eqb c1 "-" && String.eqb s2 "" then Parsed set
          else
            let name := if Ascii.eqb c1 "-" then s2 else s1 in
            match name with
            | EmptyString => ParseFails ("bad flag syntax: " ++ s)
            | String c _ =>
                if Ascii.eqb c "-" || Ascii.eqb c "="
                then ParseFails ("bad flag syntax: " ++ s)
                else
                  let (name, value) := split_name name in
                  if String.eqb name "db" then
                    match value with
                    | Some v => flag_parse rest (set ++ [("db", v)])
                    | None =>
                        match rest with
                        | v :: rest' => flag_parse rest' (set ++ [("db", v)])
                        | [] => ParseFails "flag needs an argument: -db"
                        end
                    end
                  else if String.eqb name "help" || String.eqb name "h"
                       then ParseHelp
                       else ParseFails
                              ("flag provided but not defined: -" ++ name)
            end
      | _ => Parsed set
      end
  end.

(** [flag.Parse()] on the arguments after the program name. *)
Definition flag_Parse (argv : list string) : ParseOutcome := flag_parse argv [].

(** The whole of [main], from the command line: [flag.Parse] either exits
    before anything else is done, or hands the flags it has set to the
    rest of [main].  A parse error exits with status 2; the status of the
    help exit is [help_exit] (0 from Go 1.15 on, 2 before).  The usage
    text goes to the standard error directly, not through the logger, and
    is not kept. *)
Definition process (help_exit : Z) (w : World) (argv : list string) : Run :=
  match flag_Parse argv with
  | Parsed flags => run w flags
  | ParseFails _ => {| events := [EExit 2]; output := []; status := 2 |}
  | ParseHelp =>
      {| events := [EExit help_exit]; output := []; status := help_exit |}
  end.

(** The number of queries a run issues, from what the world answers: none
    when opening fails, and then one more for each stage that is reached,
    a stage being reached when the one before returned rows. *)
Definition stages_issued (w : World) (args : FlagSet) : nat :=
  match open_db w "postgres" (flag_String args "db" "") with
  | Some _ => 0
  | None =>
      match load_catalog_name w with
      | Err _ => 1
      | Ok _ =>
          match load_schemata w schemaWhitelist with
          | Err _ | Ok [] => 2
          | Ok (_ :: _) =>
              match load_tables w schemaWhitelist with
              | Err _ | Ok [] => 3
              | Ok (_ :: _) => 4
              end
          end
      end
  end.

(** ** Two more claims that the code does not meet, as propositions *)

(** When a query fails, the failure is all the run writes: nothing fetched
    by an earlier query is in the output. *)
Definition failure_is_all_output : Prop :=
  forall w args st e,
    In (stage_query st) (events (run w args)) ->
    answer w st = Err e ->
    forall x, In x (output (run w args)) -> x = fatal_entry st e.


(** A world whose schemata query fails after the catalog name was found. *)
Definition failing_schemata_world : World :=
  {| open_db := fun _ _ => None;
     load_catalog_name := Ok "appdb";
     load_schemata := fun _ => Err "pq: permission denied for relation schemata";
     load_tables := fun _ => Ok [];
     load_columns := fun _ => Ok [] |}.

(** * Theorems *)

(** ** The loops and the shape of a run *)

Arguments Sprintf : simpl never.
Arguments flag_String : simpl never.

(** A loop of [Debugf] calls on a logger that does not write Debug entries
    adds one call per element to the trace and nothing to the output. *)
Lemma for_range_Debugf :
  forall (A : Type) (log : Logger) (format : string) (a : A -> list string)
         (l : list A) (s : State),
    IsLevelEnabled log DebugLevel = false ->
    for_range l (fun v => Debugf log format (a v)) s
    = (Next tt,
       {| trace := trace s ++ map (fun v => debug_call (Sprintf format (a v))) l;
          stderr := stderr s;
          defers := defers s |}).
Proof.
  intros A log format a l; induction l as [|v l IH]; intros s Hoff.
  - cbn. rewrite app_nil_r. destruct s; reflexivity.
  - cbn [for_range]. unfold bind at 1.
    unfold Debugf at 1, Logger_log at 1. rewrite Hoff.
    rewrite IH by assumption. cbn. rewrite <- app_assoc. reflexivity.
Qed.

(** The logger of [main] is at level Info whatever its formatter. *)
Lemma logger_Debug_off :
  forall f, IsLevelEnabled (set_Formatter logrus_New f) DebugLevel = false.
Proof. reflexivity. Qed.

Lemma length_eqb_0 : forall (A : Type) (l : list A),
  Nat.eqb (length l) 0 = true -> l = [].
Proof. intros A [|x l] H; [reflexivity | discriminate]. Qed.

Lemma length_eqb_S : forall (A : Type) (l : list A),
  Nat.eqb (length l) 0 = false -> l <> [].
Proof. intros A [|x l] H; [discriminate | congruence]. Qed.

Ltac empty_or_rows l H :=
  destruct (Nat.eqb (length l) 0) eqn:H;
  [ apply length_eqb_0 in H; subst l | apply length_eqb_S in H ].

Ltac through_loop :=
  cbn; try unfold bind at 1;
  rewrite for_range_Debugf by apply logger_Debug_off; cbn.

Ltac flatten := rewrite <- ?app_assoc; cbn.

(* Closes a goal [Outcome w args r] by the path [p], once the traces are
   re-associated. *)
Ltac by_path p :=
  let H := fresh "Hpath" in
  pose proof p as H;
  repeat (match type of H with ?A -> _ => specialize (H ltac:(assumption)) end);
  unfold upto_columns, upto_tables, upto_schemas in H;
  rewrite <- ?app_assoc in H; cbn in H; exact H.

(** Every run of [main] follows one of the nine paths. *)
Lemma run_outcome : forall w args, Outcome w args (run w args).
Proof.
  intros w args. unfold run, exec, main. cbn.
  destruct (open_db w "postgres" (flag_String args "db" "")) as [e|] eqn:Hopen.
  { cbn. by_path (open_failed w args e). }
  cbn.
  destruct (load_catalog_name w) as [dbName|e] eqn:Hname.
  2:{ cbn. by_path (name_failed w args e). }
  cbn.
  destruct (load_schemata w schemaWhitelist) as [ss|e] eqn:Hss.
  2:{ cbn. by_path (schemas_failed w args dbName e). }
  empty_or_rows ss Hn.
  { cbn. by_path (no_schemas w args dbName). }
  through_loop.
  destruct (load_tables w schemaWhitelist) as [ts|e] eqn:Hts.
  2:{ cbn. flatten. by_path (tables_failed w args dbName ss e). }
  empty_or_rows ts Hm.
  { cbn. flatten. by_path (no_tables w args dbName ss). }
  through_loop.
  destruct (load_columns w schemaWhitelist) as [cs|e] eqn:Hcs.
  2:{ cbn. flatten. by_path (columns_failed w args dbName ss ts e). }
  empty_or_rows cs Hk.
  { cbn. flatten. by_path (no_columns w args dbName ss ts). }
  through_loop. flatten.
  by_path (completed w args dbName ss ts cs).
Qed.

(** ** Nullable domain types *)

(** C3. For each of the five nullable domain types, decoding SQL NULL gives
    a value whose presence flag reports null, decoding a non-null value
    gives a value whose flag reports non-null and whose payload is that
    value, and the decoded NULL differs from every decoded value: NULL is
    never replaced by a zero value. *)
Theorem decode_preserves_null :
  (IsNull_int64 (decode_CardinalNumber None) = true
   /\ forall v, IsNull_int64 (decode_CardinalNumber (Some v)) = false
                /\ NullInt64.Int64 (decode_CardinalNumber (Some v)) = v
                /\ decode_CardinalNumber None <> decode_CardinalNumber (Some v))
  /\ (IsNull_string (decode_CharacterData None) = true
      /\ forall v, IsNull_string (decode_CharacterData (Some v)) = false
                   /\ NullString.String (decode_CharacterData (Some v)) = v
                   /\ decode_CharacterData None <> decode_CharacterData (Some v))
  /\ (IsNull_string (decode_SQLIdentifier None) = true
      /\ forall v, IsNull_string (decode_SQLIdentifier (Some v)) = false
                   /\ NullString.String (decode_SQLIdentifier (Some v)) = v
                   /\ decode_SQLIdentifier None <> decode_SQLIdentifier (Some v))
  /\ (IsNull_time (decode_TimeStamp None) = true
      /\ forall v, IsNull_time (decode_TimeStamp (Some v)) = false
                   /\ NullTime.Time (decode_TimeStamp (Some v)) = v
                   /\ decode_TimeStamp None <> decode_TimeStamp (Some v))
  /\ (IsNull_string (decode_YesOrNo None) = true
      /\ forall v, IsNull_string (decode_YesOrNo (Some v)) = false
                   /\ NullString.String (decode_YesOrNo (Some v)) = v
                   /\ decode_YesOrNo None <> decode_YesOrNo (Some v)).
Proof.
  repeat split; intro H; discriminate H.
Qed.

(** ** Struct tags *)

(** C7. In [TSchemata] only [CatalogName] carries a [db] tag: the six
    fields from [SchemaName] to [SQLPath] have none, while every field of
    [TTables] and of [TColumns] is tagged. *)
Theorem TSchemata_fields_without_tag :
  untagged_fields TSchemata_fields
  = ["SchemaName"; "SchemaOwner"; "DefaultCharacterSetCatalog";
     "DefaultCharacterSetSchema"; "DefaultCharacterSetName"; "SQLPath"]
  /\ untagged_fields TTables_fields = []
  /\ untagged_fields TColumns_fields = []
  /\ length TSchemata_fields = 7
  /\ length TTables_fields = 12
  /\ length TColumns_fields = 44.
Proof. repeat split. Qed.

(** ** Whitelist filtering *)

Lemma sql_in_spec :
  forall (x : SQLIdentifier) (whitelist : list string),
    sql_in x whitelist = true
    <-> NullString.Valid x = true /\ In (NullString.String x) whitelist.
Proof.
  intros x whitelist. unfold sql_in.
  rewrite andb_true_iff, existsb_exists. split.
  - intros [Hv [y [Hin Heq]]]. apply String.eqb_eq in Heq. subst y. now split.
  - intros [Hv Hin]. split; [assumption|].
    exists (NullString.String x). split; [assumption | apply String.eqb_refl].
Qed.

(** C1. A row is in the result of [ListSchemas] exactly when it is in the
    view and its schema name is non-null and literally an element of the
    whitelist, and likewise for [ListTables] and [ListColumns] on the table
    schema; with the whitelist [swipe] no row named [swipe2] or [Swipe] is
    in the result. *)
Theorem whitelist_exact_membership :
  (forall whitelist view r,
      In r (ListSchemas whitelist view)
      <-> In r view /\ NullString.Valid (SchemaName r) = true
          /\ In (NullString.String (SchemaName r)) whitelist)
  /\ (forall whitelist view r,
         In r (ListTables whitelist view)
         <-> In r view /\ NullString.Valid (Tables.TableSchema r) = true
             /\ In (NullString.String (Tables.TableSchema r)) whitelist)
  /\ (forall whitelist view r,
         In r (ListColumns whitelist view)
         <-> In r view /\ NullString.Valid (Columns.TableSchema r) = true
             /\ In (NullString.String (Columns.TableSchema r)) whitelist)
  /\ (forall view r,
         In r (ListSchemas ["swipe"] view) ->
         NullString.String (SchemaName r) <> "swipe2"
         /\ NullString.String (SchemaName r) <> "Swipe").
Proof.
  repeat split.
  1-12: try (unfold ListSchemas, ListTables, ListColumns in *;
             rewrite filter_In, sql_in_spec in *; tauto).
  all: unfold ListSchemas in H; rewrite filter_In, sql_in_spec in H;
    destruct H as (_ & _ & [Heq | []]); rewrite <- Heq; discriminate.
Qed.

(** In the example catalog the whitelist [swipe] keeps the schema [swipe]
    and drops [swipe2] and [Swipe]. *)
Lemma whitelist_exact_membership_witness :
  In (schema_row "appdb" "swipe" "postgres")
     (ListSchemas ["swipe"] (schemata users_catalog))
  /\ ~ In (schema_row "appdb" "swipe2" "bob")
          (ListSchemas ["swipe"] (schemata users_catalog))
  /\ ~ In (schema_row "appdb" "Swipe" "bob")
          (ListSchemas ["swipe"] (schemata users_catalog)).
Proof.
  destruct whitelist_exact_membership as (Hiff & _ & _ & Hswipe).
  split; [| split].
  - apply Hiff. cbn. auto.
  - intro H. apply Hswipe in H. destruct H as [H _]. apply H. reflexivity.
  - intro H. apply Hswipe in H. destruct H as [_ H]. apply H. reflexivity.
Defined.

(** ** Ordinal positions *)

Lemma NullString_eqb_eq :
  forall a b : NullString.t, NullString_eqb a b = true -> a = b.
Proof.
  intros [sa va] [sb vb]. unfold NullString_eqb. cbn.
  rewrite andb_true_iff, String.eqb_eq. intros [Hs Hv].
  apply Bool.eqb_prop in Hv. congruence.
Qed.

Lemma key_eqb_schema :
  forall a b : TableKey, key_eqb a b = true -> key_schema a = key_schema b.
Proof.
  intros a b. unfold key_eqb, key_schema.
  rewrite !andb_true_iff. intros [[_ H] _]. now apply NullString_eqb_eq.
Qed.

(** The listing keeps the rows of a table all together or not at all,
    according to the table's schema. *)
Lemma columns_of_ListColumns :
  forall (k : TableKey) (whitelist : list string) (view : list TColumns),
    columns_of k (ListColumns whitelist view)
    = if sql_in (key_schema k) whitelist then columns_of k view else [].
Proof.
  intros k whitelist view. unfold columns_of, ListColumns.
  induction view as [|r view IH].
  - cbn. now destruct (sql_in (key_schema k) whitelist).
  - assert (Hs : key_eqb (column_key r) k = true ->
                 sql_in (Columns.TableSchema r) whitelist
                 = sql_in (key_schema k) whitelist).
    { intro Hk. apply key_eqb_schema in Hk. now rewrite <- Hk. }
    cbn [filter].
    destruct (sql_in (Columns.TableSchema r) whitelist) eqn:Hr; cbn [filter];
      destruct (key_eqb (column_key r) k) eqn:Hk; rewrite IH;
      try specialize (Hs eq_refl);
      destruct (sql_in (key_schema k) whitelist);
      congruence.
Qed.

(** C9, as the code has it. The listing neither checks nor repairs ordinal
    positions: it returns them as the catalog's view holds them, so the
    positions of the returned rows are contiguous per table whenever those
    of the view are. *)
Theorem ListColumns_preserves_ordinals :
  forall (whitelist : list string) (view : list TColumns),
    ordinals_contiguous view ->
    ordinals_contiguous (ListColumns whitelist view).
Proof.
  intros whitelist view Hview k.
  rewrite columns_of_ListColumns.
  destruct (sql_in (key_schema k) whitelist).
  - apply Hview.
  - apply Permutation_refl.
Qed.

(** The rows of a view that all belong to one table. *)
Lemma columns_of_one_table :
  forall (key k : TableKey) (rows : list TColumns),
    Forall (fun r => column_key r = key) rows ->
    columns_of k rows = if key_eqb key k then rows else [].
Proof.
  intros key k rows H. unfold columns_of.
  induction H as [|r rows Hr _ IH].
  - now destruct (key_eqb key k).
  - cbn [filter]. rewrite Hr, IH. now destruct (key_eqb key k).
Qed.

Lemma users_columns_contiguous : ordinals_contiguous users_columns.
Proof.
  intro k.
  rewrite (columns_of_one_table users_key) by (repeat constructor).
  destruct (key_eqb users_key k); apply Permutation_refl.
Defined.

(** The two columns of [swipe.users], at positions 1 and 2, are listed
    with these positions. *)
Lemma ListColumns_preserves_ordinals_witness :
  ordinals_contiguous users_columns
  /\ ordinals_contiguous (ListColumns ["swipe"] users_columns).
Proof.
  split.
  - exact users_columns_contiguous.
  - apply (ListColumns_preserves_ordinals ["swipe"] users_columns).
    exact users_columns_contiguous.
Defined.

(** C9 fails as stated: listed from a view in which [swipe.users] has the
    positions 1 and 3, the two returned rows share their key and their
    positions are not 1 and 2. *)
Lemma ordinals_gap_counterexample :
  ListColumns ["swipe"] gap_columns = gap_columns
  /\ map column_key gap_columns = [users_key; users_key]
  /\ map OrdinalPosition gap_columns = [cardinal 1; cardinal 3]
  /\ ~ ordinals_contiguous (ListColumns ["swipe"] gap_columns)
  /\ ~ ordinals_always_contiguous.
Proof.
  assert (Hgap : ~ ordinals_contiguous (ListColumns ["swipe"] gap_columns)).
  { intro H. specialize (H users_key).
    assert (Hin : In (cardinal 3) (positions 2)).
    { apply (Permutation_in _ H). cbn. auto. }
    cbn in Hin. destruct Hin as [Hin | [Hin | []]]; discriminate Hin. }
  repeat split.
  - exact Hgap.
  - intro H. exact (Hgap (H ["swipe"] gap_columns)).
Qed.

(** ** The order of the queries *)

Lemma queries_debug_calls :
  forall (A : Type) (line : A -> string) (l : list A),
    queries (map (fun v => debug_call (line v)) l) = [].
Proof. intros A line l; induction l as [|v l IH]; [reflexivity | exact IH]. Qed.

Lemma queries_app :
  forall tr tr' : list Event, queries (tr ++ tr') = queries tr ++ queries tr'.
Proof. intros tr tr'. apply filter_app. Qed.

Ltac unfold_traces :=
  unfold upto_columns, upto_tables, upto_schemas, upto_name,
    fatal_exit, warn_return.

(** C4. In every run the queries issued are, in this order, the first
    [stages_issued] of: catalog name, schemata, tables, columns, where the
    number is fixed by what the world answers: none when opening fails,
    the catalog-name query alone when it fails, and then one listing query
    more for each earlier listing that returned rows.  A query is thus
    issued only after every earlier one has returned, with rows; when all
    four return rows, all four are issued, in the order of the source. *)
Theorem queries_in_source_order :
  forall w args,
    queries (events (run w args))
    = firstn (stages_issued w args) (map stage_query all_stages)
    /\ (forall dbName ss ts cs,
           successful w args dbName ss ts cs ->
           queries (events (run w args))
           = [ EQuery sql_catalog_name [];
               EQuery sql_schemata schemaWhitelist;
               EQuery sql_tables schemaWhitelist;
               EQuery sql_columns schemaWhitelist ]).
Proof.
  intros w args.
  assert (Hq : queries (events (run w args))
               = firstn (stages_issued w args) (map stage_query all_stages)).
  { unfold stages_issued.
    destruct (run_outcome w args); cbn [events]; unfold_traces;
      rewrite ?queries_app, ?app_nil_r;
      repeat (cbn [queries filter is_query stage_query app];
              change (filter is_query) with queries;
              rewrite ?queries_debug_calls);
      repeat match goal with
        | E : open_db _ _ _ = _ |- _ => rewrite E; clear E
        | E : load_catalog_name _ = _ |- _ => rewrite E; clear E
        | E : load_schemata _ _ = _ |- _ => rewrite E; clear E
        | E : load_tables _ _ = _ |- _ => rewrite E; clear E
        | E : load_columns _ _ = _ |- _ => clear E
        end;
      repeat match goal with
        | N : ?l <> [] |- context [match ?l with _ => _ end] =>
            destruct l; [congruence|]
        end;
      reflexivity. }
  split; [exact Hq|].
  intros dbName ss ts cs (Hopen & Hname & Hss & Hss' & Hts & Hts' & _).
  rewrite Hq. unfold stages_issued. rewrite Hopen, Hname, Hss.
  destruct ss; [congruence|]. rewrite Hts.
  destruct ts; [congruence|]. reflexivity.
Qed.

(** Against the example catalog all four queries are issued, in order. *)
Lemma queries_in_source_order_witness :
  queries (events (run (catalog_world users_catalog) []))
  = [ EQuery sql_catalog_name [];
      EQuery sql_schemata schemaWhitelist;
      EQuery sql_tables schemaWhitelist;
      EQuery sql_columns schemaWhitelist ].
Proof.
  destruct (queries_in_source_order (catalog_world users_catalog) [])
    as (_ & Hall).
  apply (Hall "appdb"
           [schema_row "appdb" "swipe" "postgres"]
           [table_row "appdb" "swipe" "users"]
           users_columns).
  repeat split; discriminate.
Defined.

(** ** Early ends: empty results and failed queries *)

Lemma row_count_0 :
  forall (A : Type) (rows : list A), Ok (length rows) = Ok 0 -> rows = [].
Proof. intros A [|x rows] H; [reflexivity | discriminate H]. Qed.

(* Splits a hypothesis [In e tr] over a trace into its cases. *)
Ltac in_trace H :=
  unfold upto_columns, upto_tables, upto_schemas, upto_name,
    fatal_exit, warn_return, debug_call in H;
  repeat first [ rewrite in_app_iff in H | rewrite in_map_iff in H
               | progress cbn [In stage_query] in H ].

Ltac contradict_hyps :=
  repeat match goal with
    | H : _ \/ _ |- _ => destruct H
    | H : exists _, _ |- _ => destruct H
    | H : _ /\ _ |- _ => destruct H
    | H : False |- _ => destruct H
    | H : _ = _ |- _ => discriminate H
    end.

(* The world's answer at a stage, read off the path's hypotheses. *)
Ltac read_answer H :=
  unfold answer, row_count in H;
  repeat match goal with
    | E : load_catalog_name _ = _ |- _ => rewrite E in H
    | E : load_schemata _ _ = _ |- _ => rewrite E in H
    | E : load_tables _ _ = _ |- _ => rewrite E in H
    | E : load_columns _ _ = _ |- _ => rewrite E in H
    end;
  try discriminate H;
  try (apply row_count_0 in H; congruence).

Ltac not_in_trace :=
  let H := fresh "Hin" in intro H; in_trace H; contradict_hyps.

(** C2. When a listing stage is reached and its query returns no rows, the
    run ends right after that query with the stage's warning and the
    deferred close: the warning is written, the exit status is 0, nothing
    is logged as fatal, the process is not exited through [os.Exit], and
    no query of a later stage is issued. *)
Theorem empty_result_short_circuit :
  forall w args st,
    In (stage_query st) (events (run w args)) ->
    answer w st = Ok 0 ->
    (exists pre, events (run w args) = pre ++ stage_query st :: warn_return st)
    /\ In (warn_entry st) (output (run w args))
    /\ status (run w args) = 0%Z
    /\ (forall msg e, ~ In (ELog FatalLevel msg e) (events (run w args)))
    /\ (forall code, ~ In (EExit code) (events (run w args)))
    /\ (forall st', stage_index st < stage_index st' ->
                    ~ In (stage_query st') (events (run w args))).
Proof.
  intros w args st Hin Hans.
  destruct (run_outcome w args); destruct st; cbn [events output status] in *;
    read_answer Hans; try (in_trace Hin; contradict_hyps; fail).
  all: (split; [eexists; reflexivity|]).
  all: (split; [cbn; auto|]).
  all: (split; [reflexivity|]).
  all: (split; [intros msg e'; not_in_trace|]).
  all: (split; [intros code; not_in_trace|]).
  all: intros [] Hlt; cbn in Hlt; try lia; not_in_trace.
Qed.

(** Against a catalog without the schema [swipe], the schemata query is
    empty and neither tables nor columns are queried. *)
Lemma empty_result_short_circuit_witness :
  (exists pre, events (run (catalog_world other_catalog) [])
               = pre ++ stage_query SchemataStage :: warn_return SchemataStage)
  /\ ~ In (stage_query TablesStage) (events (run (catalog_world other_catalog) []))
  /\ ~ In (stage_query ColumnsStage) (events (run (catalog_world other_catalog) [])).
Proof.
  destruct (empty_result_short_circuit (catalog_world other_catalog) []
              SchemataStage) as (Hpre & _ & _ & _ & _ & Hlater).
  - vm_compute. tauto.
  - reflexivity.
  - split; [exact Hpre|].
    split; apply Hlater; cbn; lia.
Defined.

(** C5, as the code has it. When a query is issued and returns an error,
    the run ends right after it with the fatal entry for that stage and
    [os.Exit(1)], status 1: the query was not issued before (it is tried
    once) and nothing is done with what earlier stages fetched.  The output
    is the fatal entry alone when the catalog-name query fails; when a
    listing query fails it is the catalog-name line, written before that
    query was issued, and the fatal entry: no row of an earlier listing is
    in it. *)
Theorem query_error_is_fatal :
  forall w args st e,
    In (stage_query st) (events (run w args)) ->
    answer w st = Err e ->
    (exists pre,
        events (run w args) = pre ++ stage_query st :: fatal_exit st e
        /\ ~ In (stage_query st) pre)
    /\ (exists out,
           output (run w args) = out ++ [fatal_entry st e]
           /\ forall x, In x out ->
                        exists dbName, load_catalog_name w = Ok dbName
                                       /\ x = info_entry dbName)
    /\ (st = CatalogNameStage -> output (run w args) = [fatal_entry st e])
    /\ (st <> CatalogNameStage ->
        exists dbName,
          load_catalog_name w = Ok dbName
          /\ output (run w args) = [info_entry dbName; fatal_entry st e])
    /\ status (run w args) = 1%Z.
Proof.
  intros w args st e Hin Hans.
  destruct (run_outcome w args); destruct st; cbn [events output status] in *;
    read_answer Hans; try (in_trace Hin; contradict_hyps; fail).
  all: injection Hans as ->.
  all: split; [eexists; split; [reflexivity | not_in_trace] |].
  all: split;
    [| split; [intro Hst; first [discriminate Hst | reflexivity]
              | split; [intro Hst;
                        first [congruence
                              | eexists; split; [eassumption | reflexivity]]
                       | reflexivity]]].
  - exists []. split; [reflexivity | intros x []].
  - exists [info_entry dbName]. split; [reflexivity|].
    intros x [<- | []]. now exists dbName.
  - exists [info_entry dbName]. split; [reflexivity|].
    intros x [<- | []]. now exists dbName.
  - exists [info_entry dbName]. split; [reflexivity|].
    intros x [<- | []]. now exists dbName.
Qed.

(** The tables query fails after one schema was listed: the run ends with
    the fatal entry and status 1, and the output is the catalog-name line
    and the fatal entry. *)
Lemma query_error_is_fatal_witness :
  (exists pre,
      events (run failing_tables_world [])
      = pre ++ stage_query TablesStage
               :: fatal_exit TablesStage
                    "pq: permission denied for relation tables"
      /\ ~ In (stage_query TablesStage) pre)
  /\ (exists dbName,
        load_catalog_name failing_tables_world = Ok dbName
        /\ output (run failing_tables_world [])
           = [info_entry dbName;
              fatal_entry TablesStage
                "pq: permission denied for relation tables"])
  /\ status (run failing_tables_world []) = 1%Z.
Proof.
  destruct (query_error_is_fatal failing_tables_world [] TablesStage
              "pq: permission denied for relation tables")
    as (Hpre & _ & _ & Hout & Hstatus).
  - vm_compute. tauto.
  - reflexivity.
  - split; [assumption|]. split; [| assumption].
    apply Hout. discriminate.
Defined.

(** C5 fails as stated: the schemata query is issued and fails, and the
    output holds, before the fatal entry, the catalog name that the first
    query fetched. *)
Lemma earlier_data_counterexample :
  In (stage_query SchemataStage) (events (run failing_schemata_world []))
  /\ answer failing_schemata_world SchemataStage
     = Err "pq: permission denied for relation schemata"
  /\ output (run failing_schemata_world [])
     = [ entry InfoLevel "db name: appdb" None;
         entry FatalLevel "select schemas"
           (Some "pq: permission denied for relation schemata") ]
  /\ emits (run failing_schemata_world []) "db name: appdb"
  /\ ~ failure_is_all_output.
Proof.
  assert (Hin : In (stage_query SchemataStage)
                   (events (run failing_schemata_world []))).
  { vm_compute. tauto. }
  repeat split; try assumption.
  - exists (entry InfoLevel "db name: appdb" None).
    split; [left; reflexivity | reflexivity].
  - intro H.
    specialize (H failing_schemata_world [] SchemataStage
                  "pq: permission denied for relation schemata"
                  Hin eq_refl (entry InfoLevel "db name: appdb" None)).
    assert (Hx : In (entry InfoLevel "db name: appdb" None)
                    (output (run failing_schemata_world [])))
      by (left; reflexivity).
    specialize (H Hx). discriminate H.
Qed.

(** ** The deferred close *)

(** Once the connection is open, [Close] runs exactly in the runs that end
    by [main] returning, and it is then the last event. *)
Lemma Close_exactly_on_return :
  forall w args,
    open_db w "postgres" (flag_String args "db" "") = None ->
    (In EClose (events (run w args)) <-> status (run w args) = 0%Z)
    /\ (status (run w args) = 0%Z ->
        exists pre, events (run w args) = pre ++ [EClose]).
Proof.
  intros w args Hopen.
  destruct (run_outcome w args); cbn [events status]; try congruence;
    (split; [split; [ intro Hin; try reflexivity; in_trace Hin; contradict_hyps
                    | intro Hst; try discriminate Hst;
                      unfold_traces; rewrite ?in_app_iff; cbn; tauto ]
            | intro Hst; try discriminate Hst ]).
  - exists (upto_name (flag_String args "db" "") dbName
            ++ [stage_query SchemataStage; ELog WarnLevel (warning SchemataStage) None]).
    unfold warn_return. now rewrite <- app_assoc.
  - exists (upto_schemas (flag_String args "db" "") dbName ss
            ++ [stage_query TablesStage; ELog WarnLevel (warning TablesStage) None]).
    unfold warn_return. now rewrite <- app_assoc.
  - exists (upto_tables (flag_String args "db" "") dbName ss ts
            ++ [stage_query ColumnsStage; ELog WarnLevel (warning ColumnsStage) None]).
    unfold warn_return. now rewrite <- app_assoc.
  - eexists; reflexivity.
Qed.

(** C6. The code at a failing input: the handle opens, the server refuses
    the catalog-name query, and the run is the open, the query, the fatal
    entry and [os.Exit(1)]; the deferred [Close] is not run. *)
Theorem Close_skipped_on_fatal_exit :
  events (run refusing_world [])
  = [ EOpen "postgres" "";
      EQuery sql_catalog_name [];
      ELog FatalLevel "load database name"
        (Some "dial tcp 127.0.0.1:5432: connection refused");
      EExit 1 ]
  /\ ~ In EClose (events (run refusing_world []))
  /\ status (run refusing_world []) = 1%Z
  /\ ~ Close_on_every_exit.
Proof.
  assert (Hno : ~ In EClose (events (run refusing_world []))).
  { vm_compute. intuition discriminate. }
  repeat split.
  - exact Hno.
  - intro H. apply Hno. apply H. reflexivity.
Qed.

(** ** What a successful run logs *)

Lemma append_empty : forall s : string, (s ++ "")%string = s.
Proof. induction s as [|c s IH]; [reflexivity | cbn; now rewrite IH]. Qed.

(** The three summaries and the catalog-name line, written out. *)
Lemma db_name_line :
  forall dbName, Sprintf "db name: %s" [dbName] = ("db name: " ++ dbName)%string.
Proof. intro dbName. cbv -[String.append]. now rewrite append_empty. Qed.

Lemma schema_line_text :
  forall v,
    schema_line v
    = ("schema " ++ NullString.String (SchemaName v)
       ++ " owned by " ++ NullString.String (SchemaOwner v))%string.
Proof.
  intro v. unfold schema_line.
  generalize (NullString.String (SchemaName v)) (NullString.String (SchemaOwner v)).
  intros a b. cbv -[String.append]. now rewrite append_empty.
Qed.

Lemma table_line_text :
  forall v,
    table_line v
    = ("table " ++ NullString.String (Tables.TableSchema v)
       ++ "." ++ NullString.String (Tables.TableName v)
       ++ " type " ++ NullString.String (Tables.TableType v))%string.
Proof.
  intro v. unfold table_line.
  generalize (NullString.String (Tables.TableSchema v))
    (NullString.String (Tables.TableName v))
    (NullString.String (Tables.TableType v)).
  intros a b c. cbv -[String.append]. now rewrite append_empty.
Qed.

Lemma column_line_text :
  forall v,
    column_line v
    = ("column " ++ NullString.String (Columns.TableSchema v)
       ++ "." ++ NullString.String (Columns.TableName v)
       ++ "." ++ NullString.String (Columns.ColumnName v))%string.
Proof.
  intro v. unfold column_line.
  generalize (NullString.String (Columns.TableSchema v))
    (NullString.String (Columns.TableName v))
    (NullString.String (Columns.ColumnName v)).
  intros a b c. cbv -[String.append]. now rewrite append_empty.
Qed.

(** C8, as the code has it. In every successful run the catalog-name line
    is logged at Info level and written; for each returned row, in row
    order and stage by stage, one Debug-level call is made with the
    summary ("schema N owned by O", "table S.T type K", "column S.T.C");
    the logger stays at its Info level, so the catalog-name line is the
    whole output and no summary is written. *)
Theorem rows_logged_at_debug_level :
  forall w args dbName ss ts cs,
    successful w args dbName ss ts cs ->
    events (run w args)
    = [ EOpen "postgres" (flag_String args "db" "");
        EQuery sql_catalog_name [];
        ELog InfoLevel ("db name: " ++ dbName)%string None ]
      ++ EQuery sql_schemata schemaWhitelist
         :: map (fun v => ELog DebugLevel
                   ("schema " ++ NullString.String (SchemaName v)
                    ++ " owned by " ++ NullString.String (SchemaOwner v))%string
                   None) ss
      ++ EQuery sql_tables schemaWhitelist
         :: map (fun v => ELog DebugLevel
                   ("table " ++ NullString.String (Tables.TableSchema v)
                    ++ "." ++ NullString.String (Tables.TableName v)
                    ++ " type " ++ NullString.String (Tables.TableType v))%string
                   None) ts
      ++ EQuery sql_columns schemaWhitelist
         :: map (fun v => ELog DebugLevel
                   ("column " ++ NullString.String (Columns.TableSchema v)
                    ++ "." ++ NullString.String (Columns.TableName v)
                    ++ "." ++ NullString.String (Columns.ColumnName v))%string
                   None) cs
      ++ [EClose]
    /\ output (run w args)
       = [entry InfoLevel ("db name: " ++ dbName)%string None]
    /\ status (run w args) = 0%Z.
Proof.
  intros w args dbName ss ts cs
         (Hopen & Hname & Hss & Hss' & Hts & Hts' & Hcs & Hcs').
  destruct (run_outcome w args); cbn [events output status]; try congruence.
  assert (dbName0 = dbName) by congruence.
  assert (ss0 = ss) by congruence.
  assert (ts0 = ts) by congruence.
  assert (cs0 = cs) by congruence.
  subst. unfold_traces. unfold info_entry, debug_call. cbn [stage_query].
  rewrite db_name_line, <- !app_assoc. cbn [app].
  split; [| split; reflexivity].
  do 4 f_equal.
  apply (f_equal2 (@app Event));
    [apply map_ext; intro; f_equal; apply schema_line_text | f_equal].
  apply (f_equal2 (@app Event));
    [apply map_ext; intro; f_equal; apply table_line_text | f_equal].
  apply (f_equal2 (@app Event)); [| reflexivity].
  apply map_ext; intro; f_equal; apply column_line_text.
Qed.

(** C8 fails as stated: the run against the example catalog is successful
    and returns the schema [swipe] owned by [postgres], but its whole output
    is the catalog-name line; the summary of that schema is not written. *)
Lemma per_row_lines_counterexample :
  successful (catalog_world users_catalog) [] "appdb"
    [schema_row "appdb" "swipe" "postgres"]
    [table_row "appdb" "swipe" "users"]
    users_columns
  /\ schema_line (schema_row "appdb" "swipe" "postgres")
     = "schema swipe owned by postgres"
  /\ output (run (catalog_world users_catalog) [])
     = [entry InfoLevel "db name: appdb" None]
  /\ ~ emits (run (catalog_world users_catalog) [])
          "schema swipe owned by postgres"
  /\ ~ per_row_lines_emitted.
Proof.
  assert (Hok : successful (catalog_world users_catalog) [] "appdb"
                  [schema_row "appdb" "swipe" "postgres"]
                  [table_row "appdb" "swipe" "users"]
                  users_columns).
  { repeat split; discriminate. }
  assert (Hno : ~ emits (run (catalog_world users_catalog) [])
                    "schema swipe owned by postgres").
  { intros (x & Hin & Hmsg). vm_compute in Hin.
    destruct Hin as [<- | []]. discriminate Hmsg. }
  repeat split; try discriminate.
  - exact Hno.
  - intro H. destruct (H _ _ _ _ _ _ Hok) as (_ & Hschemas & _).
    apply Hno. apply (Hschemas (schema_row "appdb" "swipe" "postgres")).
    left. reflexivity.
Qed.

(** The run against the example catalog: three Debug calls for the rows of
    [swipe.users] and one written line. *)
Lemma rows_logged_at_debug_level_witness :
  output (run (catalog_world users_catalog) [])
  = [entry InfoLevel "db name: appdb" None]
  /\ In (ELog DebugLevel "column swipe.users.name" None)
        (events (run (catalog_world users_catalog) [])).
Proof.
  destruct (rows_logged_at_debug_level (catalog_world users_catalog) []
              "appdb"
              [schema_row "appdb" "swipe" "postgres"]
              [table_row "appdb" "swipe" "users"]
              users_columns) as (Hev & Hout & _).
  - repeat split; discriminate.
  - split; [exact Hout|]. rewrite Hev. cbn. tauto.
Defined.

(** ** The connection string *)


Lemma flag_String_last :
  forall (name value v : string) (args : FlagSet),
    flag_String (args ++ [(name, v)]) name value = v.
Proof.
  intros name value v args. unfold flag_String.
  rewrite fold_left_app. cbn. now rewrite String.eqb_refl.
Qed.







(** ** The connection over a whole run *)

Lemma debug_calls_query_or_log :
  forall (A : Type) (line : A -> string) (l : list A),
    forallb query_or_log (map (fun v => debug_call (line v)) l) = true.
Proof. intros A line l; induction l as [|v l IH]; [reflexivity | exact IH]. Qed.

(* The trace is the open, the given middle part and the last event; the
   middle part holds only queries and logger calls. *)
Ltac ends_with side :=
  split;
  [ | side; split;
      [reflexivity | cbn [app]; rewrite <- ?app_assoc; reflexivity] ];
  rewrite ?forallb_app; cbn [forallb query_or_log stage_query andb];
  rewrite ?debug_calls_query_or_log; reflexivity.

(** Once the flags are accepted, a run opens the database as its first
    event and ends with the deferred [Close] (status 0) or [os.Exit(1)]
    (status 1); everything in between is a query or a logger call. *)
Lemma run_protocol :
  forall w args,
    exists mid,
      forallb query_or_log mid = true
      /\ ((status (run w args) = 0%Z
           /\ events (run w args)
              = EOpen "postgres" (flag_String args "db" "") :: mid ++ [EClose])
          \/ (status (run w args) = 1%Z
              /\ events (run w args)
                 = EOpen "postgres" (flag_String args "db" "")
                   :: mid ++ [EExit 1])).
Proof.
  intros w args.
  destruct (run_outcome w args); cbn [events status]; unfold_traces.
  - exists [ELog FatalLevel "Cannot connect to db" (Some e)].
    split; [reflexivity | right; split; reflexivity].
  - exists [stage_query CatalogNameStage;
            ELog FatalLevel (fatal_message CatalogNameStage) (Some e)].
    split; [reflexivity | right; split; reflexivity].
  - eexists ([_; _] ++ [_; _]). ends_with ltac:(right).
  - eexists ([_; _] ++ [_; _]). ends_with ltac:(left).
  - eexists (([_; _] ++ _ :: map _ ss) ++ [_; _]). ends_with ltac:(right).
  - eexists (([_; _] ++ _ :: map _ ss) ++ [_; _]). ends_with ltac:(left).
  - eexists ((([_; _] ++ _ :: map _ ss) ++ _ :: map _ ts) ++ [_; _]).
    ends_with ltac:(right).
  - eexists ((([_; _] ++ _ :: map _ ss) ++ _ :: map _ ts) ++ [_; _]).
    ends_with ltac:(left).
  - eexists ((([_; _] ++ _ :: map _ ss) ++ _ :: map _ ts) ++ _ :: map _ cs).
    ends_with ltac:(left).
Qed.

(** X9. Every run of the program takes one of two courses.  Either
    [flag.Parse] refuses the command line (or is asked for help) and the
    process exits there, with status 2 (or the help status), before the
    database is opened: no open, no query, no close.  Or the command line
    is accepted, and then the database is opened exactly once, as the
    first event, and the run ends with exactly one of two events: the
    deferred [Close] when [main] returns (status 0) or [os.Exit(1)]
    (status 1); everything in between is a query or a logger call, so no
    query comes before the open or after the close, and the connection is
    never closed twice. *)
Theorem connection_protocol :
  forall help_exit w argv,
    ((forall flags, flag_Parse argv <> Parsed flags)
     /\ exists code,
          (code = 2%Z \/ code = help_exit)
          /\ events (process help_exit w argv) = [EExit code]
          /\ status (process help_exit w argv) = code)
    \/ (exists flags mid,
           flag_Parse argv = Parsed flags
           /\ forallb query_or_log mid = true
           /\ ((status (process help_exit w argv) = 0%Z
                /\ events (process help_exit w argv)
                   = EOpen "postgres" (flag_String flags "db" "")
                     :: mid ++ [EClose])
               \/ (status (process help_exit w argv) = 1%Z
                   /\ events (process help_exit w argv)
                      = EOpen "postgres" (flag_String flags "db" "")
                        :: mid ++ [EExit 1]))).
Proof.
  intros help_exit w argv. unfold process.
  destruct (flag_Parse argv) as [flags | msg |] eqn:Hparse.
  - right. destruct (run_protocol w flags) as (mid & Hmid & Hends).
    exists flags, mid. repeat split; assumption.
  - left. split; [intros flags H; discriminate H|].
    exists 2%Z. repeat split. now left.
  - left. split; [intros flags H; discriminate H|].
    exists help_exit. repeat split. now right.
Qed.

(** An undefined flag ends the process before the database is opened; the
    empty command line runs against the database. *)
Lemma connection_protocol_witness :
  events (process 0 refusing_world ["-verbose"]) = [EExit 2]
  /\ exists rest,
       events (process 0 refusing_world []) = EOpen "postgres" "" :: rest.
Proof.
  split.
  - destruct (connection_protocol 0 refusing_world ["-verbose"])
      as [(_ & code & [-> | ->] & Hev & _) | (flags & _ & H & _)].
    + exact Hev.
    + vm_compute in Hev. discriminate Hev.
    + discriminate H.
  - destruct (connection_protocol 0 refusing_world [])
      as [(H & _) | (flags & mid & Hp & _ & [(_ & Hev) | (_ & Hev)])].
    + exfalso. apply (H []). reflexivity.
    + injection Hp as <-. eexists. exact Hev.
    + injection Hp as <-. eexists. exact Hev.
Defined.

(** ** [main] against a catalog *)

Lemma ident_iff :
  forall (x : NullString.t) (s : string),
    x = ident s <-> NullString.Valid x = true /\ NullString.String x = s.
Proof.
  intros [y v] s. unfold ident. cbn. split.
  - intro H. injection H as -> ->. now split.
  - intros [-> ->]. reflexivity.
Qed.

Lemma sql_in_swipe :
  forall x : SQLIdentifier, sql_in x schemaWhitelist = true <-> x = ident "swipe".
Proof.
  intro x. rewrite sql_in_spec, ident_iff. unfold schemaWhitelist. cbn [In].
  intuition congruence.
Qed.

Lemma filter_nonempty :
  forall (A : Type) (f : A -> bool) (l : list A),
    filter f l <> [] <-> exists x, In x l /\ f x = true.
Proof.
  intros A f l. split.
  - destruct (filter f l) as [|x l'] eqn:E; [congruence|]. intros _.
    exists x. apply filter_In. rewrite E. now left.
  - intros (x & Hin & Hf) E.
    assert (H : In x (filter f l)) by (apply filter_In; now split).
    rewrite E in H. exact H.
Qed.

(** X10. Against a reachable database holding a catalog, the tables are
    queried exactly when the schemata view has a row named [swipe]
    (non-null, that very text), and the columns are queried exactly when,
    besides, the tables view has a row whose schema is [swipe]. *)
Theorem stages_reached_on_catalog :
  forall c args,
    (In (stage_query TablesStage) (events (run (catalog_world c) args))
     <-> exists r, In r (schemata c) /\ SchemaName r = ident "swipe")
    /\ (In (stage_query ColumnsStage) (events (run (catalog_world c) args))
        <-> (exists r, In r (schemata c) /\ SchemaName r = ident "swipe")
            /\ exists t, In t (tables c) /\ Tables.TableSchema t = ident "swipe").
Proof.
  intros c args.
  assert (Hs : ListSchemas schemaWhitelist (schemata c) <> []
               <-> exists r, In r (schemata c) /\ SchemaName r = ident "swipe").
  { unfold ListSchemas. rewrite filter_nonempty.
    split; intros (r & Hin & H); exists r; (split; [assumption|]);
      now apply sql_in_swipe. }
  assert (Ht : ListTables schemaWhitelist (tables c) <> []
               <-> exists t, In t (tables c)
                             /\ Tables.TableSchema t = ident "swipe").
  { unfold ListTables. rewrite filter_nonempty.
    split; intros (r & Hin & H); exists r; (split; [assumption|]);
      now apply sql_in_swipe. }
  rewrite <- Hs, <- Ht.
  destruct (run_outcome (catalog_world c) args); cbn [events];
    cbn [catalog_world open_db load_catalog_name load_schemata load_tables
         load_columns] in *;
    repeat match goal with
      | H : Ok _ = Ok _ |- _ => injection H as H
      | H : Ok _ = Err _ |- _ => discriminate H
      | H : None = Some _ |- _ => discriminate H
      end;
    (split; split;
     [ intro Hin; try (in_trace Hin; contradict_hyps; fail);
       try split; congruence
     | intro Hne; try (exfalso; intuition congruence);
       unfold_traces; rewrite ?in_app_iff; cbn [In stage_query]; tauto
     | intro Hin; try (in_trace Hin; contradict_hyps; fail);
       try split; congruence
     | intro Hne; try (exfalso; intuition congruence);
       unfold_traces; rewrite ?in_app_iff; cbn [In stage_query]; tauto ]).
Qed.

Lemma stages_reached_on_catalog_witness :
  In (stage_query ColumnsStage) (events (run (catalog_world users_catalog) []))
  /\ ~ In (stage_query TablesStage) (events (run (catalog_world other_catalog) [])).
Proof.
  destruct (stages_reached_on_catalog users_catalog []) as (_ & Hcols).
  destruct (stages_reached_on_catalog other_catalog []) as (Htabs & _).
  split.
  - apply Hcols. split; eexists; (split; [left; reflexivity | reflexivity]).
  - intro H. apply Htabs in H. destruct H as (r & [<- | []] & H).
    discriminate H.
Defined.

(** ** What [main] reads of a row *)

Lemma map_Forall2 :
  forall (A B : Type) (R : A -> A -> Prop) (f : A -> B) (l l' : list A),
    (forall a b, R a b -> f a = f b) ->
    Forall2 R l l' -> map f l = map f l'.
Proof.
  intros A B R f l l' Hf H. induction H as [|a b l l' Hab _ IH]; [reflexivity|].
  cbn. now rewrite (Hf a b Hab), IH.
Qed.

Lemma same_schema_lines :
  forall ss ss',
    Forall2 same_schema_payloads ss ss' ->
    map (fun v => debug_call (schema_line v)) ss
    = map (fun v => debug_call (schema_line v)) ss'.
Proof.
  intros ss ss'. apply map_Forall2. intros a b [H1 H2].
  unfold schema_line. now rewrite H1, H2.
Qed.

Lemma same_table_lines :
  forall ts ts',
    Forall2 same_table_payloads ts ts' ->
    map (fun v => debug_call (table_line v)) ts
    = map (fun v => debug_call (table_line v)) ts'.
Proof.
  intros ts ts'. apply map_Forall2. intros a b (H1 & H2 & H3).
  unfold table_line. now rewrite H1, H2, H3.
Qed.

Lemma same_column_lines :
  forall cs cs',
    Forall2 same_column_payloads cs cs' ->
    map (fun v => debug_call (column_line v)) cs
    = map (fun v => debug_call (column_line v)) cs'.
Proof.
  intros cs cs'. apply map_Forall2. intros a b (H1 & H2 & H3).
  unfold column_line. now rewrite H1, H2, H3.
Qed.

Lemma same_answer_rows :
  forall (A : Type) (R : A -> A -> Prop) (l l' : list A),
    same_answer R (Ok l) (Ok l') -> Forall2 R l l'.
Proof. intros A R l l' H. now inversion H. Qed.

Lemma same_answer_empty :
  forall (A : Type) (R : A -> A -> Prop) (l l' : list A),
    same_answer R (Ok l) (Ok l') -> (l = [] <-> l' = []).
Proof.
  intros A R l l' H. apply same_answer_rows in H.
  destruct H; split; intro E; try reflexivity; discriminate E.
Qed.

(* Brings the two paths' facts about the worlds into the hypotheses that
   relate the worlds. *)
Ltac relate Ho Hn Hs Ht Hc :=
  repeat match goal with
    | E : open_db _ _ _ = _ |- _ => rewrite E in Ho; clear E
    | E : load_catalog_name _ = _ |- _ => rewrite E in Hn; clear E
    | E : load_schemata _ _ = _ |- _ => rewrite E in Hs; clear E
    | E : load_tables _ _ = _ |- _ => rewrite E in Ht; clear E
    | E : load_columns _ _ = _ |- _ => rewrite E in Hc; clear E
    end.

Ltac unrelated :=
  match goal with
  | H : None = Some _ |- _ => discriminate H
  | H : Some _ = None |- _ => discriminate H
  | H : Ok _ = Err _ |- _ => discriminate H
  | H : Err _ = Ok _ |- _ => discriminate H
  | H : same_answer _ (Ok _) (Err _) |- _ => inversion H
  | H : same_answer _ (Err _) (Ok _) |- _ => inversion H
  | H : same_answer _ (Ok []) (Ok ?l), N : ?l <> [] |- _ =>
      apply same_answer_empty in H; exfalso; apply N; now apply H
  | H : same_answer _ (Ok ?l) (Ok []), N : ?l <> [] |- _ =>
      apply same_answer_empty in H; exfalso; apply N; now apply H
  end.

(** X11. A run depends on the rows only through their number and the text
    payloads of the fields it prints: two worlds that answer the open and
    the catalog name alike, and whose listings fail alike or hold as many
    rows with the same schema name and owner, the same table schema, name
    and type, and the same column schema, table and name, give the same
    events, output and status.  The [Valid] flags and every other field
    are never read. *)
Theorem run_reads_payloads_only :
  forall w w' args,
    same_payloads w w' args -> run w args = run w' args.
Proof.
  intros w w' args (Ho & Hn & Hs & Ht & Hc).
  destruct (run_outcome w args); destruct (run_outcome w' args);
    relate Ho Hn Hs Ht Hc; try unrelated.
  all: repeat match goal with
         | H : Some _ = Some _ |- _ => injection H as ->
         | H : Ok _ = Ok _ |- _ => injection H as ->
         | H : Err _ = Err _ |- _ => injection H as ->
         | H : same_answer _ (Err _) (Err _) |- _ => inversion H; subst; clear H
         | H : same_answer _ (Ok _) (Ok _) |- _ => apply same_answer_rows in H
         end.
  all: unfold_traces;
    repeat match goal with
      | H : Forall2 same_schema_payloads _ _ |- _ =>
          rewrite (same_schema_lines _ _ H); clear H
      | H : Forall2 same_table_payloads _ _ |- _ =>
          rewrite (same_table_lines _ _ H); clear H
      | H : Forall2 same_column_payloads _ _ |- _ =>
          rewrite (same_column_lines _ _ H); clear H
      end;
    reflexivity.
Qed.

(** A schema whose owner is NULL and one whose owner is the empty string
    give the same run. *)
Lemma run_reads_payloads_only_witness :
  run null_owner_world [] = run empty_owner_world [].
Proof.
  apply (run_reads_payloads_only null_owner_world empty_owner_world []).
  repeat split; cbn; repeat constructor.
Defined.

(** ** Tables and columns listed together *)

(** X12. The tables and the columns are filtered on the same column with
    the same whitelist, so the two listings fit together: when every column
    row of the catalog has a table row with its (catalog, schema, table)
    key, every listed column has a listed table with its key. *)
Theorem listed_columns_have_listed_tables :
  forall (whitelist : list string) (ts : list TTables) (cs : list TColumns),
    columns_have_tables ts cs ->
    columns_have_tables (ListTables whitelist ts) (ListColumns whitelist cs).
Proof.
  intros whitelist ts cs H c Hc.
  unfold ListColumns in Hc. apply filter_In in Hc. destruct Hc as [Hin Hs].
  destruct (H c Hin) as (t & Ht & Hkey).
  exists t. split; [| exact Hkey].
  unfold ListTables. apply filter_In. split; [exact Ht|].
  assert (E : Tables.TableSchema t = Columns.TableSchema c).
  { apply (f_equal key_schema) in Hkey. exact Hkey. }
  now rewrite E.
Qed.

Lemma users_columns_have_tables :
  columns_have_tables (tables users_catalog) (columns users_catalog).
Proof.
  intros c Hc. exists (table_row "appdb" "swipe" "users").
  split; [left; reflexivity|].
  destruct Hc as [<- | [<- | []]]; reflexivity.
Defined.

Lemma listed_columns_have_listed_tables_witness :
  columns_have_tables (ListTables ["swipe"] (tables users_catalog))
                      (ListColumns ["swipe"] (columns users_catalog)).
Proof.
  apply (listed_columns_have_listed_tables ["swipe"]).
  exact users_columns_have_tables.
Defined.

(** ** The request body: [Read], [Close], [Reset] *)

Lemma wrap_int_in_range :
  forall z : Z, (int_min <= z <= int_max)%Z -> wrap_int z = z.
Proof.
  intros z. unfold wrap_int, int_min, int_max.
  change (2 ^ 63)%Z with 9223372036854775808%Z.
  change (2 ^ 64)%Z with 18446744073709551616%Z.
  intro H. rewrite Z.mod_small by lia. lia.
Qed.

Lemma int_max_value : int_max = 9223372036854775807%Z.
Proof. reflexivity. Qed.

Lemma int_min_value : int_min = (-9223372036854775808)%Z.
Proof. reflexivity. Qed.

(** One call of [Read] on a reader with bytes left. *)
Lemma Read_with_bytes_left :
  forall r b ans,
    readable r -> (iter r < size r)%Z ->
    Read r b ans
    = let m := Z.min (size r - iter r) (len b) in
      let '(dst, n, err) := rand_Read ans (firstn (Z.to_nat m) b) in
      ReadReturns n err {| iter := iter r + m; size := size r |}
        (dst ++ skipn (Z.to_nat m) b).
Proof.
  intros r b ans [Hr Hs] Hlt. unfold Read.
  pose proof int_max_value as Hmax. pose proof int_min_value as Hmin.
  assert (Hlen : (0 <= len b)%Z) by (unfold len; lia).
  rewrite wrap_int_in_range by lia.
  destruct (Z.eqb_spec (size r - iter r) 0) as [E|_]; [lia|].
  assert (Hm : (if size r - iter r >? len b then len b else size r - iter r)%Z
               = Z.min (size r - iter r) (len b)).
  { destruct (Z.gtb_spec (size r - iter r) (len b)); lia. }
  rewrite Hm. cbv zeta.
  destruct (Z.ltb_spec (Z.min (size r - iter r) (len b)) 0) as [E|_]; [lia|].
  rewrite wrap_int_in_range by lia. reflexivity.
Qed.

(** X1. On a readable reader with bytes left, [Read] never panics: it
    advances [iter] by the smaller of the bytes left and the buffer length,
    whatever the random source gives; it reports the count the source
    wrote and the source's error; the buffer keeps its length, its first
    [n] bytes are the source's and the rest is untouched. *)
Theorem Read_advances :
  forall r b ans,
    readable r -> (iter r < size r)%Z ->
    exists n err b',
      Read r b ans
      = ReadReturns n err
          {| iter := iter r + Z.min (size r - iter r) (len b);
             size := size r |} b'
      /\ n = Z.min (Z.of_nat (length (rand_bytes ans)))
                   (Z.min (size r - iter r) (len b))
      /\ err = rand_err ans
      /\ length b' = length b
      /\ firstn (Z.to_nat n) b' = firstn (Z.to_nat n) (rand_bytes ans)
      /\ skipn (Z.to_nat n) b' = skipn (Z.to_nat n) b.
Proof.
  intros r b ans Hr Hlt.
  rewrite (Read_with_bytes_left r b ans Hr Hlt).
  destruct Hr as [Hr Hs]. cbv zeta. unfold rand_Read.
  set (m := Z.to_nat (Z.min (size r - iter r) (len b))).
  assert (Hm : m <= length b) by (unfold m, len; lia).
  assert (Hmz : Z.min (size r - iter r) (len b) = Z.of_nat m)
    by (unfold m, len; lia).
  rewrite length_firstn, (Nat.min_l m (length b)) by assumption.
  set (n := Nat.min (length (rand_bytes ans)) m).
  assert (Hn : n <= m) by (unfold n; lia).
  assert (Hn' : n <= length (rand_bytes ans)) by (unfold n; lia).
  do 3 eexists. split; [reflexivity|].
  rewrite Nat2Z.id.
  assert (Hfn : length (firstn n (rand_bytes ans)) = n)
    by (rewrite length_firstn; lia).
  repeat split.
  - unfold n. rewrite Hmz. lia.
  - rewrite !length_app, Hfn, !length_skipn, length_firstn. lia.
  - rewrite <- !app_assoc, firstn_app, Hfn, Nat.sub_diag, firstn_O, app_nil_r.
    apply firstn_all2. lia.
  - rewrite <- !app_assoc, skipn_app, Hfn, Nat.sub_diag, skipn_O.
    rewrite (skipn_all2 (firstn n (rand_bytes ans))) by lia. cbn [app].
    rewrite <- (firstn_skipn m b) at 3.
    rewrite skipn_app, length_firstn, (Nat.min_l m (length b)) by assumption.
    replace (n - m) with 0 by lia. now rewrite skipn_O.
Qed.

(** Two of five bytes are asked from a source that fails after one: one
    byte is reported, with the error, and the reader has moved by two. *)
Lemma Read_advances_witness :
  exists n err b',
    Read five_bytes (zeros 2) failing_random
    = ReadReturns n err {| iter := 2; size := 5 |} b'
    /\ n = 1%Z /\ err = Some "unexpected EOF" /\ length b' = 2.
Proof.
  destruct (Read_advances five_bytes (zeros 2) failing_random)
    as (n & err & b' & Hread & Hn & Herr & Hlen & _).
  - unfold readable. vm_compute. intuition discriminate.
  - reflexivity.
  - exists n, err, b'. repeat split; assumption.
Defined.

(** One call on a readable reader, for the inductions below. *)
Lemma Read_readable :
  forall r b ans,
    readable r ->
    exists n err r' b',
      Read r b ans = ReadReturns n err r' b'
      /\ readable r' /\ size r' = size r
      /\ (0 <= n <= iter r' - iter r)%Z
      /\ iter r' = (iter r + Z.min (size r - iter r) (len b))%Z
      /\ (Z.min (size r - iter r) (len b)
          <= Z.of_nat (length (rand_bytes ans)) ->
          n = iter r' - iter r)%Z.
Proof.
  intros r b ans Hr.
  assert (Hlen : (0 <= len b)%Z) by (unfold len; lia).
  destruct (Z.eq_dec (iter r) (size r)) as [Heq | Hne].
  - exists 0%Z, (Some io_EOF), r, b. unfold Read.
    rewrite Heq, Z.sub_diag. cbn. unfold readable in *. repeat split; lia.
  - destruct Hr as [Hi Hs].
    rewrite (Read_with_bytes_left r b ans (conj Hi Hs)) by lia.
    cbv zeta. unfold rand_Read.
    do 4 eexists. split; [reflexivity|].
    rewrite length_firstn. unfold readable, len in *. cbn [iter size].
    repeat split; lia.
Qed.

Lemma reads_preserve :
  forall calls r,
    readable r ->
    panicked (reads r calls) = false
    /\ readable (final (reads r calls))
    /\ size (final (reads r calls)) = size r
    /\ (iter r <= iter (final (reads r calls)))%Z
    /\ length (returned (reads r calls)) = length calls.
Proof.
  induction calls as [|[b ans] calls IH]; intros r Hr.
  - cbn. repeat split; try apply Hr; lia.
  - destruct (Read_readable r b ans Hr)
      as (n & err & r' & b' & Hread & Hr' & Hsize & Hn & _).
    cbn [reads]. rewrite Hread. cbn [returned final panicked length].
    destruct (IH r' Hr') as (Hp & Hf & Hs & Hi & Hl).
    repeat split; try assumption; try apply Hf; try lia.
Qed.

(** X2. A readable reader stays readable through any sequence of reads:
    no call panics, every call returns, [size] is unchanged and [iter]
    never decreases nor passes [size]. *)
Theorem reads_keep_readable :
  forall calls r,
    readable r ->
    panicked (reads r calls) = false
    /\ readable (final (reads r calls))
    /\ size (final (reads r calls)) = size r
    /\ (iter r <= iter (final (reads r calls)))%Z
    /\ length (returned (reads r calls)) = length calls.
Proof. exact reads_preserve. Qed.

Lemma reads_keep_readable_witness :
  panicked (reads five_bytes [(zeros 2, eight_random); (zeros 2, eight_random)])
  = false
  /\ readable (final (reads five_bytes
                        [(zeros 2, eight_random); (zeros 2, eight_random)])).
Proof.
  destruct (reads_keep_readable
              [(zeros 2, eight_random); (zeros 2, eight_random)] five_bytes)
    as (Hp & Hr & _).
  - unfold readable. vm_compute. intuition discriminate.
  - split; assumption.
Defined.

(** X3. Over any sequence of reads of a readable reader, the bytes
    reported in total are at most the advance of [iter], which is at most
    the bytes that were left: the reader never hands out more than [size]
    bytes, whatever the buffers and the random source. *)
Theorem reads_total_bounded :
  forall calls r,
    readable r ->
    (0 <= total_read (reads r calls)
     <= iter (final (reads r calls)) - iter r)%Z
    /\ (iter (final (reads r calls)) - iter r <= size r - iter r)%Z.
Proof.
  induction calls as [|[b ans] calls IH]; intros r Hr.
  - cbn. destruct Hr. lia.
  - destruct (Read_readable r b ans Hr)
      as (n & err & r' & b' & Hread & Hr' & Hsize & Hn & _).
    unfold total_read. cbn [reads]. rewrite Hread.
    cbn [returned final fold_right fst].
    destruct (IH r' Hr') as (Ht & Hi). unfold total_read in Ht.
    rewrite Hsize in Hi. lia.
Qed.

Lemma reads_total_bounded_witness :
  (total_read (reads five_bytes
                 [(zeros 2, failing_random); (zeros 4, eight_random)])
   <= 5)%Z.
Proof.
  destruct (reads_total_bounded
              [(zeros 2, failing_random); (zeros 4, eight_random)] five_bytes)
    as (Ht & Hi).
  - unfold readable. vm_compute. intuition discriminate.
  - cbn [iter size five_bytes] in *. lia.
Defined.

(** X4. With buffers of [k] bytes and a random source that fills them
    without error, [m] reads move a readable reader to
    [min size (iter + m * k)] and report exactly that many bytes: read to
    the end, the body is [size] bytes long. *)
Theorem reads_deliver_size :
  forall k calls r,
    readable r -> Forall (fills k) calls ->
    iter (final (reads r calls))
    = Z.min (size r) (iter r + Z.of_nat (length calls) * Z.of_nat k)
    /\ total_read (reads r calls) = (iter (final (reads r calls)) - iter r)%Z.
Proof.
  intros k calls; induction calls as [|[b ans] calls IH]; intros r Hr Hall.
  - cbn. destruct Hr. lia.
  - inversion Hall as [|c cs [Hb [Hk He]] Hrest]; subst. cbn [fst snd] in *.
    destruct (Read_readable r b ans Hr)
      as (n & err & r' & b' & Hread & Hr' & Hsize & Hn & Hiter & Hfull).
    unfold total_read. cbn [reads]. rewrite Hread.
    cbn [returned final fold_right fst length].
    destruct (IH r' Hr' Hrest) as (Hi & Ht). unfold total_read in Ht.
    assert (Hlen : len b = Z.of_nat (length b)) by reflexivity.
    destruct Hr as [Hr0 Hr1].
    rewrite Hfull by lia. rewrite Ht, Hi, Hsize. split; lia.
Qed.

Lemma reads_deliver_size_witness :
  iter (final (reads five_bytes
                 [(zeros 2, eight_random); (zeros 2, eight_random);
                  (zeros 2, eight_random)])) = 5%Z
  /\ total_read (reads five_bytes
                   [(zeros 2, eight_random); (zeros 2, eight_random);
                    (zeros 2, eight_random)]) = 5%Z.
Proof.
  destruct (reads_deliver_size 2
              [(zeros 2, eight_random); (zeros 2, eight_random);
               (zeros 2, eight_random)] five_bytes) as (Hi & Ht).
  - unfold readable. vm_compute. intuition discriminate.
  - repeat constructor.
  - rewrite Ht, Hi. split; reflexivity.
Defined.

(** X5. Once [iter] has reached [size], every further read returns
    [(0, io.EOF)], and neither the reader nor the buffer changes; the random
    source is not consulted. *)
Theorem exhausted_reader_stays_at_EOF :
  forall r calls,
    iter r = size r ->
    reads r calls
    = {| returned := map (fun _ => (0%Z, Some io_EOF)) calls;
         final := r;
         panicked := false |}
    /\ (forall b ans, Read r b ans = ReadReturns 0 (Some io_EOF) r b).
Proof.
  intros r calls Heq.
  assert (Hread : forall b ans, Read r b ans = ReadReturns 0 (Some io_EOF) r b).
  { intros b ans. unfold Read. now rewrite Heq, Z.sub_diag. }
  split; [| exact Hread].
  induction calls as [|[b ans] calls IH]; [reflexivity|].
  cbn [reads map]. rewrite Hread, IH. reflexivity.
Qed.

Lemma exhausted_reader_stays_at_EOF_witness :
  Read {| iter := 5; size := 5 |} (zeros 2) eight_random
  = ReadReturns 0 (Some io_EOF) {| iter := 5; size := 5 |} (zeros 2).
Proof.
  destruct (exhausted_reader_stays_at_EOF {| iter := 5; size := 5 |} [])
    as (_ & Hread).
  - reflexivity.
  - apply Hread.
Defined.

(** X6. With bytes left and a buffer of length zero, [Read] returns 0
    together with the random source's error (nil from a sound source), not
    [io.EOF], and the reader does not move. *)
Theorem Read_empty_buffer :
  forall r ans,
    readable r -> (iter r < size r)%Z ->
    Read r [] ans = ReadReturns 0 (rand_err ans) r [].
Proof.
  intros r ans Hr Hlt.
  rewrite (Read_with_bytes_left r [] ans Hr Hlt).
  destruct Hr as [Hr Hs].
  change (len []) with 0%Z.
  rewrite Z.min_r by lia. cbn. rewrite Z.add_0_r.
  destruct (rand_bytes ans); destruct r; reflexivity.
Qed.

Lemma Read_empty_buffer_witness :
  Read five_bytes [] eight_random = ReadReturns 0 None five_bytes [].
Proof.
  apply (Read_empty_buffer five_bytes eight_random).
  - unfold readable. vm_compute. intuition discriminate.
  - reflexivity.
Defined.

(** X7. [Read] panics, on the slice expression, exactly when the bytes
    left, [size - iter] computed with wrap-around, are negative, whatever
    the buffer and the random source; the reader is then left as it was.
    So it panics whenever [iter] is past [size] and the difference does not
    overflow (a negative [size], for one); when the difference wraps to a
    positive number it does not panic. *)
Theorem Read_past_size_panics :
  forall r b ans,
    (Read r b ans = ReadPanics r <-> (wrap_int (size r - iter r) < 0)%Z)
    /\ (forall r', Read r b ans = ReadPanics r' -> r' = r)
    /\ ((int_min <= size r - iter r < 0)%Z -> Read r b ans = ReadPanics r).
Proof.
  intros r b ans.
  assert (Hlen : (0 <= len b)%Z) by (unfold len; lia).
  assert (Hiff : Read r b ans = ReadPanics r
                 <-> (wrap_int (size r - iter r) < 0)%Z).
  { unfold Read. set (m := wrap_int (size r - iter r)).
    destruct (Z.eqb_spec m 0) as [E|E].
    - split; [discriminate | lia].
    - destruct (Z.gtb_spec m (len b)) as [G|G].
      + destruct (Z.ltb_spec (len b) 0) as [L|L]; [lia|].
        destruct (rand_Read ans (firstn (Z.to_nat (len b)) b)) as [[dst n] err].
        split; [discriminate | lia].
      + destruct (Z.ltb_spec m 0) as [L|L]; [tauto|].
        destruct (rand_Read ans (firstn (Z.to_nat m) b)) as [[dst n] err].
        split; [discriminate | lia]. }
  split; [exact Hiff|]. split.
  - intros r' H. unfold Read, rand_Read in H.
    destruct (wrap_int (size r - iter r) =? 0)%Z; [discriminate H|].
    match type of H with
    | (if ?c then _ else _) = _ => destruct c
    end; [now injection H | discriminate H].
  - intro H. apply Hiff. pose proof int_max_value.
    rewrite wrap_int_in_range by lia. lia.
Qed.

(** A reader with a negative [size] panics on its first read; one whose
    difference wraps around (iter the largest [int], size the smallest but
    one) does not. *)
Lemma Read_past_size_panics_witness :
  Read {| iter := 0; size := -1 |} (zeros 4) eight_random
  = ReadPanics {| iter := 0; size := -1 |}
  /\ Read {| iter := int_max; size := int_min + 1 |} (zeros 4) eight_random
     <> ReadPanics {| iter := int_max; size := int_min + 1 |}.
Proof.
  split.
  - destruct (Read_past_size_panics {| iter := 0; size := -1 |}
                (zeros 4) eight_random) as (_ & _ & Hneg).
    apply Hneg. vm_compute. intuition discriminate.
  - intro H.
    destruct (Read_past_size_panics
                {| iter := int_max; size := int_min + 1 |}
                (zeros 4) eight_random) as (Hiff & _ & _).
    apply Hiff in H. vm_compute in H. discriminate H.
Defined.

Lemma reads_app :
  forall calls1 calls2 r,
    panicked (reads r calls1) = false ->
    returned (reads r (calls1 ++ calls2))
    = returned (reads r calls1) ++ returned (reads (final (reads r calls1)) calls2)
    /\ final (reads r (calls1 ++ calls2))
       = final (reads (final (reads r calls1)) calls2).
Proof.
  induction calls1 as [|[b ans] calls1 IH]; intros calls2 r Hp.
  - split; reflexivity.
  - cbn [reads app] in *. destruct (Read r b ans) as [n err r' b'|r'].
    + cbn [returned final panicked] in *.
      destruct (IH calls2 r' Hp) as (H1 & H2). now rewrite H1, H2.
    + discriminate Hp.
Qed.

(** X8. [Close] does not rewind and [Reset] does: for a readable reader,
    reading, closing and reading again returns what reading straight on
    returns, while after [Reset] the reads are those of the reader reset
    before anything was read. *)
Theorem Close_keeps_position_Reset_rewinds :
  forall r calls1 calls2,
    readable r ->
    snd (Close (final (reads r calls1))) = None
    /\ returned (reads r (calls1 ++ calls2))
       = returned (reads r calls1)
         ++ returned (reads (fst (Close (final (reads r calls1)))) calls2)
    /\ reads (Reset (final (reads r calls1))) calls2 = reads (Reset r) calls2.
Proof.
  intros r calls1 calls2 Hr.
  destruct (reads_preserve calls1 r Hr) as (Hp & _ & Hs & _).
  split; [reflexivity|]. split.
  - apply reads_app. assumption.
  - unfold Reset. now rewrite Hs.
Qed.

Lemma Close_keeps_position_Reset_rewinds_witness :
  returned (reads (fst (Close (final (reads five_bytes
                                          [(zeros 4, eight_random)]))))
              [(zeros 4, eight_random)])
  = [(1%Z, None)]
  /\ returned (reads (Reset (final (reads five_bytes
                                       [(zeros 4, eight_random)])))
                 [(zeros 4, eight_random)])
     = [(4%Z, None)].
Proof.
  destruct (Close_keeps_position_Reset_rewinds five_bytes
              [(zeros 4, eight_random)] [(zeros 4, eight_random)])
    as (_ & Hclose & Hreset).
  - unfold readable. vm_compute. intuition discriminate.
  - split; [reflexivity | now rewrite Hreset].
Defined.
